(** * chat-bot.py: the scheduler loop of the Twitter bot and its four actions

    A shallow embedding of [src/chat-bot.py].  Python computations are
    functions of the local variables of the running function that return a
    result or a raised exception, the new local variables and the trace of
    what the process did (log records, lines printed, sleeps, calls to the
    collaborator).  Whatever the outside world answers to a call (the
    collaborator's reply, the clock, a sleep that is interrupted) is an input
    of the model: nothing is assumed about which calls fail or how. *)

From stdpp Require Import base decidable option list list_numbers strings pretty gmap.
From Stdlib Require Import ZArith Lia Ascii.

Open Scope Z_scope.

(** ** Exceptions *)

(** The exception classes the program tells apart.  [TooManyRequests] and
    [Forbidden] are subclasses of [TweepyException]; all three and
    [OtherException] (ValueError, KeyError, AttributeError, ...) are
    subclasses of [Exception]; [KeyboardInterrupt] derives from
    [BaseException] only. *)
Inductive exn_class :=
  | TweepyException
  | TooManyRequests
  | Forbidden
  | OtherException
  | KeyboardInterrupt.

(** An exception object: its class and [str(e)]. *)
Record exn := Exn { exn_cls : exn_class; exn_str : string }.

#[global] Instance exn_class_eq_dec : EqDecision exn_class.
Proof. solve_decision. Defined.

Definition is_TooManyRequests (e : exn) : bool :=
  bool_decide (exn_cls e = TooManyRequests).

Definition is_Forbidden (e : exn) : bool :=
  bool_decide (exn_cls e = Forbidden).

Definition is_TweepyException (e : exn) : bool :=
  match exn_cls e with
  | TweepyException | TooManyRequests | Forbidden => true
  | OtherException | KeyboardInterrupt => false
  end.

Definition is_Exception (e : exn) : bool :=
  match exn_cls e with
  | KeyboardInterrupt => false
  | _ => true
  end.

Definition is_KeyboardInterrupt (e : exn) : bool :=
  bool_decide (exn_cls e = KeyboardInterrupt).

(** The outcome of a call: a value or a raised exception. *)
Inductive res (A : Type) :=
  | Ret (a : A)
  | Raise (e : exn).
Arguments Ret {A} a.
Arguments Raise {A} e.

(** ** What the process does *)

Inductive level := INFO | WARNING | ERROR | CRITICAL.

(** Calls to the collaborator (the tweepy client and API objects). *)
Inductive api_call :=
  | GetMe
  | CreateTweet (text : string) (in_reply_to_tweet_id : option Z)
  | SearchRecentTweets (query : string)
  | CreateFavorite (id : Z)
  | GetUsersMentions (since_id : option Z)
  | GetUser (id : Z)
  | FollowUser (id : Z)
  | GetFollowers
  | GetFriends.

Inductive event :=
  | Log (lvl : level) (msg : string)
  | Stdout (line : string)
  | Sleep (secs : Z)
  | Api (c : api_call).

(** ** Python computations *)

(** A computation over local variables [L]: it ends with a value or an
    exception; assignments made before an exception was raised stay. *)
Definition Py (L A : Type) : Type := L -> res A * L * list event.

#[global] Instance Py_ret {L} : MRet (Py L) :=
  fun A a l => (Ret a, l, []).

#[global] Instance Py_bind {L} : MBind (Py L) :=
  fun A B f m l =>
    match m l with
    | (Ret a, l1, t1) => let '(r, l2, t2) := f a l1 in (r, l2, t1 ++ t2)
    | (Raise e, l1, t1) => (Raise e, l1, t1)
    end.

Notation "m ;; k" := (mbind (fun _ => k) m)
  (at level 100, k at level 200, right associativity) : stdpp_scope.

Definition raise {L A} (e : exn) : Py L A := fun l => (Raise e, l, []).
Definition get {L} : Py L L := fun l => (Ret l, l, []).
Definition put {L} (l : L) : Py L unit := fun _ => (Ret tt, l, []).
Definition emit {L} (ev : event) : Py L unit := fun l => (Ret tt, l, [ev]).

(** [logger.info], [logger.warning], [logger.error], [logger.critical];
    the logging module swallows the errors of its handlers. *)
Definition log {L} (lvl : level) (msg : string) : Py L unit := emit (Log lvl msg).
Definition print {L} (line : string) : Py L unit := emit (Stdout line).

(** A call whose outcome [r] the outside world decides. *)
Definition ext {L A} (r : res A) : Py L A := fun l => (r, l, []).
Definition call {L A} (c : api_call) (r : res A) : Py L A := emit (Api c);; ext r.
(** [time.sleep(secs)]; the sleep returns, or is cut short by [r]. *)
Definition sleep {L} (secs : Z) (r : res unit) : Py L unit := emit (Sleep secs);; ext r.

(** A function call: the callee runs on its own locals [l0], which are
    dropped when it returns or raises. *)
Definition invoke {L L' A} (f : Py L' A) (l0 : L') : Py L A :=
  fun l => let '(r, _, t) := f l0 in (r, l, t).

(** [except C as e: h]: a class test and a handler. *)
Definition clause (L A : Type) : Type := (exn -> bool) * (exn -> Py L A).

(** The first clause whose class the exception is an instance of. *)
Fixpoint first_match {L A} (cs : list (clause L A)) (e : exn) : option (Py L A) :=
  match cs with
  | [] => None
  | (isinstance, h) :: cs' => if isinstance e then Some (h e) else first_match cs' e
  end.

(** [try: body except ...]: an exception of the body runs the first
    matching clause; one that matches none, or that a handler raises,
    goes to the caller. *)
Definition try_except {L A} (body : Py L A) (cs : list (clause L A)) : Py L A :=
  fun l =>
    match body l with
    | (Ret a, l1, t1) => (Ret a, l1, t1)
    | (Raise e, l1, t1) =>
        match first_match cs e with
        | Some h => let '(r, l2, t2) := h l1 in (r, l2, t1 ++ t2)
        | None => (Raise e, l1, t1)
        end
    end.

(** The parts of the outcome of a run. *)
Definition outcome {L A} (r : res A * L * list event) : res A := r.1.1.
Definition locals {L A} (r : res A * L * list event) : L := r.1.2.
Definition trace {L A} (r : res A * L * list event) : list event := r.2.

(** Loop control of a [for] or [while] body. *)
Inductive ctl := Continue | Break.

(** [for x in items: body]. *)
Fixpoint for_each {L A} (items : list A) (body : A -> Py L ctl) : Py L unit :=
  match items with
  | [] => mret tt
  | x :: rest =>
      c ← body x;
      match c with
      | Break => mret tt
      | Continue => for_each rest body
      end
  end.

(** ** Truth values *)

(** Python's truth test, as [if x:] and [not x] apply it. *)
Class Truthy (A : Type) := truthy : A -> bool.

#[global] Instance truthy_string : Truthy string :=
  fun s => negb (bool_decide (s = "")).
#[global] Instance truthy_Z : Truthy Z :=
  fun z => negb (z =? 0).
#[global] Instance truthy_list {A} : Truthy (list A) :=
  fun l => match l with [] => false | _ => true end.
(** [None] is false; any other value has its own truth value. *)
#[global] Instance truthy_option {A} `{Truthy A} : Truthy (option A) :=
  fun o => match o with None => false | Some a => truthy a end.

(** ** Strings *)

Definition lower_ascii (c : ascii) : ascii :=
  let n := nat_of_ascii c in
  if ((65 <=? n)%nat && (n <=? 90)%nat)%bool then ascii_of_nat (n + 32) else c.

(** [s.lower()] *)
Fixpoint lower (s : string) : string :=
  match s with
  | EmptyString => EmptyString
  | String c s' => String (lower_ascii c) (lower s')
  end.

Fixpoint starts_with (p s : string) : bool :=
  match p, s with
  | EmptyString, _ => true
  | String a p', String b s' => bool_decide (a = b) && starts_with p' s'
  | String _ _, EmptyString => false
  end.

(** [needle in hay] *)
Fixpoint str_in (needle hay : string) : bool :=
  starts_with needle hay ||
  match hay with
  | EmptyString => false
  | String _ hay' => str_in needle hay'
  end.

(** [random.choice(l)], the index drawn being [pick]. *)
Definition random_choice (pick : nat) (l : list string) : string :=
  nth (pick mod length l) l "".

(** ** Configuration *)

Definition TWEET_INTERVAL : Z := 60 * 60.
Definition HASHTAGS_TO_LIKE : list string := ["python"; "coding"; "technology"].
Definition MAX_LIKES_PER_RUN : nat := 3.
Definition TWEETS : list string :=
  [ "Just another day coding with Python! #Python #Coding";
    "Exploring new programming techniques today. #Coding #Technology";
    "Automation makes life easier! #Python #Technology";
    "Building cool stuff with code. #Coding #Development";
    "Learning something new every day in tech. #Technology #Learning" ].

(** ** The collaborator's answers *)

(** A user object ([me.data], [client.get_user(...).data], an entry of
    [includes["users"]], an item of the friends cursor). *)
Record User := { user_id : Z; username : string }.

(** [obj.data.attr]: [AttributeError] when [data] is [None]. *)
Definition attr {L A B} (data : option A) (name : string) (f : A -> B) : Py L B :=
  match data with
  | Some a => mret (f a)
  | None =>
      raise (Exn OtherException
               ("'NoneType' object has no attribute '" +:+ name +:+ "'"))
  end.

(** [d[k]] on a dict: [TypeError] on [None], [KeyError] on a missing key. *)
Definition subscript {L} (d : option (gmap string string)) (k : string) : Py L string :=
  match d with
  | None => raise (Exn OtherException "'NoneType' object is not subscriptable")
  | Some m =>
      match m !! k with
      | Some v => mret v
      | None => raise (Exn OtherException ("'" +:+ k +:+ "'"))
      end
  end.

(** A cursor ([tweepy.Cursor(...).items(n)]): the items the collaborator
    hands out and, when fetching fails after them, the error. *)
Record Cursor (A : Type) := { cursor_items : list A; cursor_error : option exn }.
Arguments cursor_items {A} _.
Arguments cursor_error {A} _.

(** [for x in cursor.items(n): body]: at most [n] items are drawn; the
    error is raised only when the loop asks for an item past the last. *)
Fixpoint for_cursor {L A} (n : nat) (items : list A) (err : option exn)
    (body : A -> Py L ctl) : Py L unit :=
  match n with
  | O => mret tt
  | S n' =>
      match items with
      | [] => match err with Some e => raise e | None => mret tt end
      | x :: rest =>
          c ← body x;
          match c with
          | Break => mret tt
          | Continue => for_cursor n' rest err body
          end
      end
  end.

(** ** post_tweet *)

(** What [client.create_tweet] returns: [response.data] is a dict. *)
Record Response := { data : option (gmap string string) }.

(** The world of one call of [post_tweet]: the tweet drawn and the
    collaborator's answer to [create_tweet]. *)
Record PostWorld := { tweet_pick : nat; create_tweet : res Response }.

(** The body of the [try], lines 116-119. *)
Definition post_tweet_try (client : PostWorld) (tweet : string)
    : Py unit (option string) :=
  response ← call (CreateTweet tweet None) (create_tweet client);
  tweet_id ← subscript (data response) "id";
  log INFO ("Posted tweet: " +:+ tweet +:+ " (ID: " +:+ tweet_id +:+ ")");;
  mret (Some tweet_id).

Definition post_tweet (client : PostWorld) : Py unit (option string) :=
  let tweet := random_choice (tweet_pick client) TWEETS in
  try_except
    (post_tweet_try client tweet)
    [ (is_TooManyRequests, fun _ =>
         log WARNING "Rate limit exceeded. Waiting before next attempt.";;
         mret None);
      (is_Forbidden, fun _ =>
         log ERROR "Posting tweets forbidden. Check your API access level.";;
         mret None);
      (is_Exception, fun e =>
         log ERROR ("Error posting tweet: " +:+ exn_str e);;
         mret None) ].

(** ** like_tweets *)

(** A tweet of the search result, with the answers to the calls made on
    it: [api_v1.create_favorite(tweet.id)] and the [time.sleep(5)] after. *)
Record Tweet := { tweet_id : Z; create_favorite : res unit; like_nap : res unit }.

Record LikeWorld := {
  hashtag_pick : nat;
  search_recent_tweets : res (option (list Tweet))   (* [tweets.data] *)
}.

(** The local variable is [liked_count]. *)
Definition like_one (hashtag : string) (tweet : Tweet) : Py Z ctl :=
  try_except
    (call (CreateFavorite (tweet_id tweet)) (create_favorite tweet);;
     log INFO ("Liked tweet with #" +:+ hashtag +:+ " (ID: "
               +:+ pretty (tweet_id tweet) +:+ ")");;
     liked_count ← get;
     put (liked_count + 1);;
     sleep 5 (like_nap tweet);;
     mret Continue)
    [ (is_TweepyException, fun e =>
         (if str_in "already favorited" (lower (exn_str e))
          then log INFO ("Tweet already liked (ID: " +:+ pretty (tweet_id tweet) +:+ ")")
          else log ERROR ("Error liking tweet " +:+ pretty (tweet_id tweet)
                          +:+ ": " +:+ exn_str e));;
         mret Continue) ].

(** The body of the outer [try], lines 135-160. *)
Definition like_tweets_try (w : LikeWorld) (hashtag : string) : Py Z Z :=
  let query := "#" +:+ hashtag +:+ " -is:retweet lang:en" in
  tweets_data ← call (SearchRecentTweets query) (search_recent_tweets w);
  if negb (truthy tweets_data) then
    log INFO ("No recent tweets found with #" +:+ hashtag);;
    mret 0
  else
    put 0;;
    for_each (take MAX_LIKES_PER_RUN (default [] tweets_data)) (like_one hashtag);;
    get.

Definition like_tweets (w : LikeWorld) : Py Z Z :=
  let hashtag := random_choice (hashtag_pick w) HASHTAGS_TO_LIKE in
  try_except
    (like_tweets_try w hashtag)
    [ (is_TooManyRequests, fun _ =>
         log WARNING "Rate limit exceeded when searching tweets. Waiting before next attempt.";;
         mret 0);
      (is_Exception, fun e =>
         log ERROR ("Error searching or liking tweets: " +:+ exn_str e);;
         mret 0) ].

(** ** reply_to_mentions *)

(** A mention, with the answers to the calls made on it:
    [client.get_user(id=author_id).data], the reply's [create_tweet] and
    the [time.sleep(5)] after it. *)
Record Mention := {
  mention_id : Z;
  author_id : Z;
  get_user : res (option User);
  reply_tweet : res unit;
  reply_nap : res unit
}.

Record Mentions := {
  mentions_data : option (list Mention);
  includes : option (gmap string (list User))
}.

Record MentionsWorld := {
  mw_get_me : res (option User);          (* [client.get_me().data] *)
  get_users_mentions : res Mentions
}.

(** A dict is true when it is not empty. *)
#[global] Instance truthy_gmap {V} : Truthy (gmap string V) :=
  fun m => negb (bool_decide (m = ∅)).

(** [a > b], [b] being an [int] or [None]: comparing with [None] is a
    [TypeError]. *)
Definition py_gt {L} (a : Z) (b : option Z) : Py L bool :=
  match b with
  | Some b' => mret (b' <? a)
  | None =>
      raise (Exn OtherException
               "'>' not supported between instances of 'int' and 'NoneType'")
  end.

(** [not x or a > x]: the comparison is evaluated only when [x] is true. *)
Definition unset_or_gt {L} (a : Z) (x : option Z) : Py L bool :=
  if negb (truthy x) then mret true else py_gt a x.

(** The inner [for user in mentions.includes["users"]] with its [break]:
    the name of the first user whose id is [author]. *)
Fixpoint find_username (users : list User) (author : Z) : option string :=
  match users with
  | [] => None
  | user :: rest =>
      if user_id user =? author then Some (username user)
      else find_username rest author
  end.

Definition username_from_includes (incl : option (gmap string (list User)))
    (author : Z) : option string :=
  match incl with
  | Some m =>
      if truthy m then
        match m !! "users" with
        | Some users => find_username users author
        | None => None
        end
      else None
  | None => None
  end.

(** Lines 197-220: the name of the author, and the reply. *)
Definition send_reply (incl : option (gmap string (list User))) (mention : Mention)
    : Py (option Z) unit :=
  let found := username_from_includes incl (author_id mention) in
  name ← (if negb (truthy found) then
            user ← call (GetUser (author_id mention)) (get_user mention);
            attr user "username" username
          else mret (default "" found));
  let reply := "@" +:+ name +:+ " Thanks for the mention! This is an automated reply." in
  try_except
    (call (CreateTweet reply (Some (mention_id mention))) (reply_tweet mention);;
     log INFO ("Replied to @" +:+ name);;
     sleep 5 (reply_nap mention))
    [ (is_Exception, fun e =>
         log ERROR ("Error replying to mention: " +:+ exn_str e)) ].

(** The body of the loop, lines 193-220.  The local variable is
    [new_since_id]. *)
Definition reply_one (since_id : option Z) (incl : option (gmap string (list User)))
    (mention : Mention) : Py (option Z) ctl :=
  is_new ← unset_or_gt (mention_id mention) since_id;
  if is_new : bool then
    new_since_id ← get;
    larger ← unset_or_gt (mention_id mention) new_since_id;
    (if larger : bool then put (Some (mention_id mention)) else mret tt);;
    send_reply incl mention;;
    mret Continue
  else mret Continue.

(** The body of the outer [try], lines 171-222. *)
Definition reply_to_mentions_try (client : MentionsWorld) (since_id : option Z)
    : Py (option Z) (option Z) :=
  me ← call GetMe (mw_get_me client);
  _ ← attr me "id" user_id;
  mentions ← call (GetUsersMentions (if truthy since_id then since_id else None))
                  (get_users_mentions client);
  if negb (truthy (mentions_data mentions)) then
    log INFO "No new mentions found";;
    mret since_id
  else
    let found := default [] (mentions_data mentions) in
    log INFO ("Found " +:+ pretty (length found) +:+ " mentions to process");;
    put since_id;;
    for_each found (reply_one since_id (includes mentions));;
    get.

Definition reply_to_mentions (client : MentionsWorld) (since_id : option Z)
    : Py (option Z) (option Z) :=
  try_except
    (reply_to_mentions_try client since_id)
    [ (is_TooManyRequests, fun _ =>
         log WARNING "Rate limit exceeded when getting mentions. Waiting before next attempt.";;
         mret since_id);
      (is_Exception, fun e =>
         log ERROR ("Error processing mentions: " +:+ exn_str e);;
         mret since_id) ].

(** ** follow_back_users *)

(** A follower, with the answers to the calls made on it:
    [client.follow_user(follower.id)] and the [time.sleep(5)] after it. *)
Record Follower := {
  follower_id : Z;
  screen_name : string;
  follow_user : res unit;
  follow_nap : res unit
}.

Record FollowWorld := {
  fw_get_me : res (option User);          (* [client.get_me().data] *)
  get_followers : Cursor Follower;
  get_friends : Cursor User
}.

Record FollowLocals := { following_ids : gset Z; count : Z }.

Definition follow_one (follower : Follower) : Py FollowLocals ctl :=
  l ← get;
  if bool_decide (follower_id follower ∉ following_ids l) then
    try_except
      (call (FollowUser (follower_id follower)) (follow_user follower);;
       log INFO ("Followed back @" +:+ screen_name follower);;
       l1 ← get;
       put {| following_ids := following_ids l1; count := count l1 + 1 |};;
       sleep 5 (follow_nap follower);;
       l2 ← get;
       if 5 <=? count l2 then mret Break else mret Continue)
      [ (is_Exception, fun e =>
           log ERROR ("Error following user @" +:+ screen_name follower
                      +:+ ": " +:+ exn_str e);;
           mret Continue) ]
  else mret Continue.

(** The body of the outer [try], lines 233-265. *)
Definition follow_back_users_try (w : FollowWorld) : Py FollowLocals Z :=
  me ← call GetMe (fw_get_me w);
  _ ← attr me "id" user_id;
  l ← get;
  put {| following_ids := ∅; count := count l |};;
  emit (Api GetFriends);;
  for_cursor 100 (cursor_items (get_friends w)) (cursor_error (get_friends w))
    (fun user =>
       l ← get;
       put {| following_ids := following_ids l ∪ {[user_id user]};
              count := count l |};;
       mret Continue);;
  l ← get;
  put {| following_ids := following_ids l; count := 0 |};;
  emit (Api GetFollowers);;
  for_cursor 20 (cursor_items (get_followers w)) (cursor_error (get_followers w))
    follow_one;;
  l ← get;
  (if 0 <? count l
   then log INFO ("Followed back " +:+ pretty (count l) +:+ " users")
   else log INFO "No new users to follow back");;
  mret (count l).

Definition follow_back_users (w : FollowWorld) : Py FollowLocals Z :=
  try_except
    (follow_back_users_try w)
    [ (is_Exception, fun e =>
         log ERROR ("Error in follow-back process: " +:+ exn_str e);;
         mret 0) ].

(** ** get_credentials and authenticate_twitter *)

Definition required_vars : list string :=
  [ "TWITTER_API_KEY"; "TWITTER_API_SECRET"; "TWITTER_ACCESS_TOKEN";
    "TWITTER_ACCESS_SECRET"; "TWITTER_BEARER_TOKEN" ].

(** [os.getenv(var)] in the process environment [environ]. *)
Definition getenv (environ : gmap string string) (var : string) : option string :=
  environ !! var.

Definition get_credentials (environ : gmap string string)
    : Py unit (option (gmap string string)) :=
  let missing :=
    List.filter (fun var => negb (truthy (getenv environ var))) required_vars in
  if truthy missing then
    log ERROR ("Missing environment variables: " +:+ String.concat ", " missing);;
    log ERROR "Create a .env file with these variables or set them in your environment";;
    mret None
  else
    mret (Some (list_to_map
      [ ("api_key", default "" (getenv environ "TWITTER_API_KEY"));
        ("api_secret", default "" (getenv environ "TWITTER_API_SECRET"));
        ("access_token", default "" (getenv environ "TWITTER_ACCESS_TOKEN"));
        ("access_secret", default "" (getenv environ "TWITTER_ACCESS_SECRET"));
        ("bearer_token", default "" (getenv environ "TWITTER_BEARER_TOKEN")) ])).

(** The objects [authenticate_twitter] builds. *)
Inductive handle := ClientV1 | ClientV2 | ApiV1.

#[global] Instance truthy_handle : Truthy handle := fun _ => true.

(** The value returned is a tuple, here the list of its components: its
    length is what the caller's unpacking depends on. *)
Definition authenticate_twitter (environ : gmap string string)
    (get_me : res (option User)) : Py unit (list (option handle)) :=
  credentials ← invoke (get_credentials environ) tt;
  if negb (truthy credentials) then
    mret [None; None]
  else
    try_except
      (me ← call GetMe get_me;
       name ← attr me "username" username;
       log INFO ("Connected as @" +:+ name);;
       mret [Some ClientV1; Some ClientV2; Some ApiV1])
      [ (is_TweepyException, fun e =>
           log ERROR ("Authentication failed: " +:+ exn_str e);;
           mret [None; None; None]) ].

(** [a, b, c = t]: [ValueError] unless [t] has three components. *)
Definition unpack3 {L A} (t : list A) : Py L (A * A * A) :=
  match t with
  | [a; b; c] => mret (a, b, c)
  | _ =>
      raise (Exn OtherException
               (if (length t <? 3)%nat
                then "not enough values to unpack (expected 3, got "
                     +:+ pretty (length t) +:+ ")"
                else "too many values to unpack (expected 3)"))
  end.

(** ** run_bot *)

(** The local variables of [run_bot] that outlive a cycle. *)
Record BotState := {
  since_id : option Z;
  last_tweet_time : Z;
  follow_back_interval : Z;
  last_follow_back_time : Z;
  consecutive_errors : Z;
  max_errors : Z
}.

Definition set_last_tweet_time (t : Z) (st : BotState) : BotState :=
  {| since_id := since_id st; last_tweet_time := t;
     follow_back_interval := follow_back_interval st;
     last_follow_back_time := last_follow_back_time st;
     consecutive_errors := consecutive_errors st; max_errors := max_errors st |}.

Definition set_consecutive_errors (n : Z) (st : BotState) : BotState :=
  {| since_id := since_id st; last_tweet_time := last_tweet_time st;
     follow_back_interval := follow_back_interval st;
     last_follow_back_time := last_follow_back_time st;
     consecutive_errors := n; max_errors := max_errors st |}.

(** The assignments of lines 282-287. *)
Definition init : BotState :=
  {| since_id := None; last_tweet_time := 0;
     follow_back_interval := 6 * 60 * 60; last_follow_back_time := 0;
     consecutive_errors := 0; max_errors := 5 |}.

(** The world of one pass of the [while True] loop: the clock reading
    ([time.time()], in seconds), the collaborator as [post_tweet] finds it,
    and how the two sleeps end. *)
Record TickWorld := {
  time_time : res Z;
  client_v1 : PostWorld;
  cycle_nap : res unit;       (* [time.sleep(100)] *)
  backoff_nap : res unit      (* [time.sleep(wait_time)] *)
}.

(** The cadence test of line 298. *)
Definition isDue (last_run_at min_interval now : Z) : bool :=
  min_interval <=? now - last_run_at.

(** The assignment of line 300. *)
Definition markRan (now : Z) : Py BotState unit :=
  st ← get; put (set_last_tweet_time now st).

(** Lines 292-311: the actions of one cycle (the calls that are commented
    out in the source are not part of the program). *)
Definition cycle (w : TickWorld) : Py BotState unit :=
  current_time ← ext (time_time w);
  st ← get;
  if isDue (last_tweet_time st) TWEET_INTERVAL current_time then
    posted ← invoke (post_tweet (client_v1 w)) tt;
    if truthy posted then markRan current_time else mret tt
  else mret tt.

(** Lines 313-318: the reset of the counter and the wait. *)
Definition reset_and_wait (w : TickWorld) : Py BotState unit :=
  st ← get;
  put (set_consecutive_errors 0 st);;
  log INFO "Waiting for next check...";;
  sleep 100 (cycle_nap w).

(** The backoff of line 332.  The counter is at least 1 here, so the
    exponent is never negative. *)
Definition wait_time (consecutive_errors : Z) : Z :=
  Z.min (300 * 2 ^ (consecutive_errors - 1)) 3600.

(** Lines 323-334: the handler of [except Exception as e]. *)
Definition on_error (w : TickWorld) (e : exn) : Py BotState ctl :=
  st ← get;
  put (set_consecutive_errors (consecutive_errors st + 1) st);;
  log ERROR ("Unhandled error: " +:+ exn_str e);;
  st ← get;
  if max_errors st <=? consecutive_errors st then
    log CRITICAL ("Too many consecutive errors ("
                  +:+ pretty (consecutive_errors st) +:+ "). Stopping bot.");;
    mret Break
  else
    log WARNING ("Waiting " +:+ pretty (wait_time (consecutive_errors st))
                 +:+ " seconds before retry...");;
    sleep (wait_time (consecutive_errors st)) (backoff_nap w);;
    mret Continue.

(** The body of the [try] of the loop, lines 292-318. *)
Definition tick_try (w : TickWorld) : Py BotState ctl :=
  cycle w;; reset_and_wait w;; mret Continue.

(** One pass of the loop body, lines 291-334. *)
Definition tick (w : TickWorld) : Py BotState ctl :=
  try_except
    (tick_try w)
    [ (is_KeyboardInterrupt, fun _ =>
         print "Bot stopped by user. Goodbye!";;
         mret Break);
      (is_Exception, on_error w) ].

(** How a run of [run_bot] over finitely many passes ends. *)
Inductive run_end :=
  | AuthFailed      (* the [return] of line 278 *)
  | Stopped         (* a [break] left the loop *)
  | StillRunning.   (* the loop is ready for its next pass *)

(** [while True]: one pass per element of [ticks]. *)
Fixpoint main_loop (ticks : list TickWorld) : Py BotState run_end :=
  match ticks with
  | [] => mret StillRunning
  | w :: rest =>
      c ← tick w;
      match c with
      | Break => mret Stopped
      | Continue => main_loop rest
      end
  end.

Record World := {
  environ : gmap string string;
  auth_get_me : res (option User);
  ticks : list TickWorld
}.

Definition run_bot (w : World) : Py BotState run_end :=
  print "Starting Twitter bot...";;
  t ← invoke (authenticate_twitter (environ w) (auth_get_me w)) tt;
  '(client_v1, client_v2, api_v1) ← unpack3 t;
  if negb (truthy client_v1) || negb (truthy client_v2) then
    print "Error: Could not authenticate with Twitter API";;
    mret AuthFailed
  else
    print "Bot is now running! Press CTRL+C to stop.";;
    put init;;
    main_loop (ticks w).

(** ** Reading a trace *)

(** The durations of the sleeps of a trace, in order. *)
Fixpoint sleeps (t : list event) : list Z :=
  match t with
  | [] => []
  | Sleep secs :: t' => secs :: sleeps t'
  | _ :: t' => sleeps t'
  end.

(** The calls made to the collaborator, in order. *)
Fixpoint api_calls (t : list event) : list api_call :=
  match t with
  | [] => []
  | Api c :: t' => c :: api_calls t'
  | _ :: t' => api_calls t'
  end.

(** The lines printed, in order. *)
Fixpoint printed (t : list event) : list string :=
  match t with
  | [] => []
  | Stdout line :: t' => line :: printed t'
  | _ :: t' => printed t'
  end.

(** [t] followed by the trace of [r]. *)
Definition after {L A} (t : list event) (r : res A * L * list event)
    : res A * L * list event :=
  (outcome r, locals r, t ++ trace r).

(** [create_tweet] answered with a tweet id that is not empty. *)
Definition tweet_posted (answer : res Response) : bool :=
  match answer with
  | Ret response =>
      match data response with
      | Some d => match d !! "id" with Some id => truthy id | None => false end
      | None => false
      end
  | Raise _ => false
  end.

(** What [post_tweet] logs when [create_tweet] raised [e]: the record of
    the first [except] clause that matches. *)
Definition post_tweet_failure (e : exn) : event :=
  if is_TooManyRequests e then
    Log WARNING "Rate limit exceeded. Waiting before next attempt."
  else if is_Forbidden e then
    Log ERROR "Posting tweets forbidden. Check your API access level."
  else Log ERROR ("Error posting tweet: " +:+ exn_str e).

(** [f] is [body] inside a [try] whose clauses catch every [Exception]
    and return [sentinel] after one log record; what is not an
    [Exception] goes through. *)
Definition absorbs {L A} (f body : Py L A) (sentinel : A) : Prop :=
  forall l,
    match body l with
    | (Ret a, l1, t1) => f l = (Ret a, l1, t1)
    | (Raise e, l1, t1) =>
        if is_Exception e
        then exists lvl msg, f l = (Ret sentinel, l1, t1 ++ [Log lvl msg])
        else f l = (Raise e, l1, t1)
    end.

(** The value of [not x or a > x]. *)
Definition newer (a : Z) (x : option Z) : bool :=
  match x with
  | None => true
  | Some b => if b =? 0 then true else b <? a
  end.

(** The order of cursors: no cursor is below every mention id. *)
Definition cursor_le (a b : option Z) : Prop :=
  match a, b with
  | None, _ => True
  | Some _, None => False
  | Some x, Some y => x <= y
  end.

Definition cursor_lt (a b : option Z) : Prop :=
  match a, b with
  | None, Some _ => True
  | _, None => False
  | Some x, Some y => x < y
  end.

(** What the loop keeps true of [new_since_id]. *)
Definition cursor_inv (since : option Z) (found : list Mention) (new : option Z)
    : Prop :=
  cursor_le since new /\
  (new = since \/
   cursor_lt since new /\ exists m, m ∈ found /\ new = Some (mention_id m)).

(** The name of a mention's author can be had: [includes] gives one
    that is not empty, or [get_user] returns the user. *)
Definition author_known (incl : option (gmap string (list User)))
    (mention : Mention) : Prop :=
  truthy (username_from_includes incl (author_id mention)) = true \/
  exists user, get_user mention = Ret (Some user).

(** The variables of [required_vars] that [get_credentials] finds
    missing, and whether there is none. *)
Definition missing_vars (environ : gmap string string) : list string :=
  List.filter (fun var => negb (truthy (getenv environ var))) required_vars.

Definition credentials_present (environ : gmap string string) : bool :=
  forallb (fun var => truthy (getenv environ var)) required_vars.

(** ** Predicates on states and worlds *)

(** What holds of the counter whenever the loop starts a pass. *)
Definition loop_ok (st : BotState) : Prop :=
  0 <= consecutive_errors st < 5 /\ max_errors st = 5.

(** A pass whose cycle raises an [Exception] before any action, and whose
    backoff sleep returns. *)
Definition cycle_fails (w : TickWorld) : Prop :=
  exists e, time_time w = Raise e /\ is_Exception e = true /\ backoff_nap w = Ret tt.

(** A pass whose cycle completes, whose steady-state sleep raises an
    [Exception], and whose backoff sleep returns. *)
Definition wait_fails (w : TickWorld) : Prop :=
  exists now e,
    time_time w = Ret now /\
    (forall e', create_tweet (client_v1 w) = Raise e' -> is_Exception e' = true) /\
    cycle_nap w = Raise e /\ is_Exception e = true /\ backoff_nap w = Ret tt.

(** The durations the loop can sleep. *)
Definition loop_sleeps : list Z := [100; 300; 600; 1200; 2400].

(** The ids [follow_back_users] collects in [following_ids]: those of the
    first 100 friends. *)
Definition friend_ids (w : FollowWorld) : gset Z :=
  list_to_set (user_id <$> take 100 (cursor_items (get_friends w))).

(** The error that ends the iteration over the friends, if any: the
    cursor's, when it has fewer than 100 items to give. *)
Definition friends_error (w : FollowWorld) : option exn :=
  if (length (cursor_items (get_friends w)) <? 100)%nat
  then cursor_error (get_friends w) else None.

(** The calls [follow_back_users] may make: the three lookups, and
    [follow_user] on one of the first 20 followers who is not among the
    friends collected. *)
Definition follow_call_ok (w : FollowWorld) (c : api_call) : Prop :=
  match c with
  | GetMe | GetFriends | GetFollowers => True
  | FollowUser id =>
      (id ∉ friend_ids w) /\
      (id ∈ follower_id <$> take 20 (cursor_items (get_followers w)))
  | _ => False
  end.

(** The calls [reply_to_mentions] may make: the lookups, and a reply to
    one of the mentions returned whose id passes the test of line 193. *)
Definition reply_call_ok (client : MentionsWorld) (since : option Z) (c : api_call)
    : Prop :=
  match c with
  | GetMe | GetUsersMentions _ | GetUser _ => True
  | CreateTweet _ (Some id) =>
      newer id since = true /\
      exists ms m, get_users_mentions client = Ret ms /\
                   m ∈ default [] (mentions_data ms) /\ id = mention_id m
  | _ => False
  end.

(** What one turn of the loop of [reply_to_mentions] does to
    [new_since_id]. *)
Definition advance (since : option Z) (new : option Z) (mention : Mention)
    : option Z :=
  if newer (mention_id mention) since && newer (mention_id mention) new
  then Some (mention_id mention) else new.

(** ** Worlds used in the examples *)

Definition answer_id (id : string) : res Response :=
  Ret {| data := Some {[ "id" := id ]} |}.

Definition interrupt : exn := Exn KeyboardInterrupt "".
Definition rate_limit : exn := Exn TooManyRequests "429 Too Many Requests".
Definition forbidden : exn := Exn Forbidden "403 Forbidden".
Definition out_of_memory : exn := Exn OtherException "MemoryError".

(** A pass at clock reading [now] in which the collaborator answers
    [answer] and no sleep is interrupted. *)
Definition calm_tick (now : Z) (answer : res Response) : TickWorld :=
  {| time_time := Ret now;
     client_v1 := {| tweet_pick := 0; create_tweet := answer |};
     cycle_nap := Ret tt; backoff_nap := Ret tt |}.

(** A pass whose cycle raises an exception into the loop: the clock
    reading itself fails; the backoff sleep ends as [nap] says. *)
Definition failing_tick (nap : res unit) : TickWorld :=
  {| time_time := Raise out_of_memory;
     client_v1 := {| tweet_pick := 0; create_tweet := answer_id "1" |};
     cycle_nap := Ret tt; backoff_nap := nap |}.

(** An environment with every credential set. *)
Definition full_environ : gmap string string :=
  list_to_map (map (fun var => (var, "secret")) required_vars).

Definition bot_user : User := {| user_id := 1; username := "bot" |}.

(** A pass whose steady-state sleep is interrupted from the keyboard. *)
Definition interrupted_wait (now : Z) (answer : res Response) : TickWorld :=
  {| time_time := Ret now;
     client_v1 := {| tweet_pick := 0; create_tweet := answer |};
     cycle_nap := Raise interrupt; backoff_nap := Ret tt |}.

(** The error of [create_favorite] on a tweet that is liked already. *)
Definition liked_already : exn :=
  Exn Forbidden "403 Forbidden 139 - You have already favorited this status.".

Definition liked_tweet (id : Z) : Tweet :=
  {| tweet_id := id; create_favorite := Raise liked_already; like_nap := Ret tt |}.

Definition fresh_tweet (id : Z) : Tweet :=
  {| tweet_id := id; create_favorite := Ret tt; like_nap := Ret tt |}.

Definition unreachable_tweet (id : Z) : Tweet :=
  {| tweet_id := id;
     create_favorite := Raise (Exn TweepyException "503 Service Unavailable");
     like_nap := Ret tt |}.

Definition search_finds (tweets : list Tweet) : LikeWorld :=
  {| hashtag_pick := 0; search_recent_tweets := Ret (Some tweets) |}.

(** A mention by user 5 to which the reply ends as [sent] says. *)
Definition mention_of (id : Z) (sent : res unit) : Mention :=
  {| mention_id := id; author_id := 5;
     get_user := Ret (Some {| user_id := 5; username := "ann" |});
     reply_tweet := sent; reply_nap := Ret tt |}.

Definition mentions_found (found : list Mention) : MentionsWorld :=
  {| mw_get_me := Ret (Some bot_user);
     get_users_mentions := Ret {| mentions_data := Some found; includes := None |} |}.

(** A follower whose follow succeeds, the sleep after it ending as [nap]
    says. *)
Definition follower_of (id : Z) (nap : res unit) : Follower :=
  {| follower_id := id; screen_name := "fan"; follow_user := Ret tt;
     follow_nap := nap |}.

(** The bot follows nobody yet and has the followers [fans]. *)
Definition followed_by (fans : list Follower) : FollowWorld :=
  {| fw_get_me := Ret (Some bot_user);
     get_followers := {| cursor_items := fans; cursor_error := None |};
     get_friends := {| cursor_items := []; cursor_error := None |} |}.

(** A process started without [TWITTER_BEARER_TOKEN]. *)
Definition no_bearer_token : World :=
  {| environ := delete "TWITTER_BEARER_TOKEN" full_environ;
     auth_get_me := Ret (Some bot_user);
     ticks := [calm_tick 1700000000 (answer_id "1")] |}.

(** A process that authenticates and then lives through [ticks]. *)
Definition connected (ticks : list TickWorld) : World :=
  {| environ := full_environ; auth_get_me := Ret (Some bot_user); ticks := ticks |}.

(** * Properties *)

(** ** Running the combinators *)

Ltac py_unfold :=
  cbv beta iota delta
    [mbind mret Py_bind Py_ret get put emit log print ext call sleep raise
     invoke try_except first_match outcome locals trace after fst snd].

Lemma bind_run {L A B} (m : Py L A) (f : A -> Py L B) (l : L) :
  (m ≫= f) l =
  match m l with
  | (Ret a, l1, t1) => after t1 (f a l1)
  | (Raise e, l1, t1) => (Raise e, l1, t1)
  end.
Proof.
  py_unfold. destruct (m l) as [[[a|e] l1] t1]; [|reflexivity].
  destruct (f a l1) as [[r l2] t2]. reflexivity.
Qed.

Lemma try_except_run {L A} (body : Py L A) (cs : list (clause L A)) (l : L) :
  try_except body cs l =
  match body l with
  | (Ret a, l1, t1) => (Ret a, l1, t1)
  | (Raise e, l1, t1) =>
      match first_match cs e with
      | Some h => after t1 (h l1)
      | None => (Raise e, l1, t1)
      end
  end.
Proof.
  unfold try_except, after, outcome, locals, trace.
  destruct (body l) as [[[a|e] l1] t1]; [reflexivity|].
  destruct (first_match cs e) as [h|]; [|reflexivity].
  destruct (h l1) as [[r l2] t2]. reflexivity.
Qed.

Lemma after_nil {L A} (r : res A * L * list event) : after [] r = r.
Proof. destruct r as [[r l] t]. reflexivity. Qed.

(** [KeyboardInterrupt] is the one class that is not an [Exception]. *)
Lemma is_KeyboardInterrupt_Exception (e : exn) :
  is_KeyboardInterrupt e = negb (is_Exception e).
Proof. destruct e as [[] s]; reflexivity. Qed.

(** ** The loop body, piece by piece *)

Lemma markRan_run (now : Z) (st : BotState) :
  markRan now st = (Ret tt, set_last_tweet_time now st, []).
Proof. reflexivity. Qed.

Lemma reset_and_wait_run (w : TickWorld) (st : BotState) :
  reset_and_wait w st =
  (cycle_nap w, set_consecutive_errors 0 st,
   [Log INFO "Waiting for next check..."; Sleep 100]).
Proof.
  unfold reset_and_wait. py_unfold. by destruct (cycle_nap w).
Qed.

(** The handler of [except Exception]: the counter goes up by one; then
    the loop is left, or the backoff sleep is taken. *)
Lemma on_error_run (w : TickWorld) (e : exn) (st : BotState) :
  let n := consecutive_errors st + 1 in
  on_error w e st =
  if max_errors st <=? n then
    (Ret Break, set_consecutive_errors n st,
     [Log ERROR ("Unhandled error: " +:+ exn_str e);
      Log CRITICAL ("Too many consecutive errors (" +:+ pretty n
                    +:+ "). Stopping bot.")])
  else
    (match backoff_nap w with Ret _ => Ret Continue | Raise e' => Raise e' end,
     set_consecutive_errors n st,
     [Log ERROR ("Unhandled error: " +:+ exn_str e);
      Log WARNING ("Waiting " +:+ pretty (wait_time n) +:+ " seconds before retry...");
      Sleep (wait_time n)]).
Proof.
  intros n. unfold on_error. py_unfold.
  change (max_errors (set_consecutive_errors (consecutive_errors st + 1) st))
    with (max_errors st).
  change (consecutive_errors (set_consecutive_errors (consecutive_errors st + 1) st))
    with n.
  destruct (max_errors st <=? n); [reflexivity|].
  by destruct (backoff_nap w).
Qed.

Lemma tick_try_run (w : TickWorld) (st : BotState) :
  tick_try w st =
  match cycle w st with
  | (Ret _, st1, t1) =>
      (match cycle_nap w with Ret _ => Ret Continue | Raise e => Raise e end,
       set_consecutive_errors 0 st1,
       t1 ++ [Log INFO "Waiting for next check..."; Sleep 100])
  | (Raise e, st1, t1) => (Raise e, st1, t1)
  end.
Proof.
  unfold tick_try. rewrite bind_run.
  destruct (cycle w st) as [[[[]|e] st1] t1]; [|reflexivity].
  rewrite bind_run, reset_and_wait_run.
  destruct (cycle_nap w) as [[]|e]; reflexivity.
Qed.

Lemma tick_run (w : TickWorld) (st : BotState) :
  tick w st =
  match tick_try w st with
  | (Ret c, st1, t1) => (Ret c, st1, t1)
  | (Raise e, st1, t1) =>
      if is_Exception e then after t1 (on_error w e st1)
      else (Ret Break, st1, t1 ++ [Stdout "Bot stopped by user. Goodbye!"])
  end.
Proof.
  unfold tick. rewrite try_except_run.
  destruct (tick_try w st) as [[[c|e] st1] t1]; [reflexivity|].
  cbn [first_match]. rewrite is_KeyboardInterrupt_Exception.
  destruct (is_Exception e); reflexivity.
Qed.

(** ** post_tweet and the cycle *)

Lemma post_tweet_raise (client : PostWorld) (e : exn) :
  create_tweet client = Raise e ->
  post_tweet client tt =
  let tweet := random_choice (tweet_pick client) TWEETS in
  if is_Exception e
  then (Ret None, tt, [Api (CreateTweet tweet None); post_tweet_failure e])
  else (Raise e, tt, [Api (CreateTweet tweet None)]).
Proof.
  intros He. unfold post_tweet, post_tweet_try, post_tweet_failure. py_unfold.
  rewrite He. by destruct e as [[] s].
Qed.

(** The value [post_tweet] returns is true exactly when [create_tweet]
    answered with a tweet id. *)
Lemma post_tweet_truthy (client : PostWorld) :
  match outcome (post_tweet client tt) with
  | Ret posted => truthy posted = tweet_posted (create_tweet client)
  | Raise e => create_tweet client = Raise e /\ is_Exception e = false
  end.
Proof.
  destruct (create_tweet client) as [response|e] eqn:Hc.
  - unfold post_tweet, post_tweet_try, tweet_posted, subscript. py_unfold.
    rewrite Hc. destruct (data response) as [d|]; [|reflexivity].
    destruct (d !! "id") as [id|]; reflexivity.
  - rewrite (post_tweet_raise _ _ Hc). cbv zeta.
    destruct (is_Exception e) eqn:He; [reflexivity|done].
Qed.

Lemma cycle_run (w : TickWorld) (st : BotState) (now : Z) :
  time_time w = Ret now ->
  cycle w st =
  if isDue (last_tweet_time st) TWEET_INTERVAL now then
    match post_tweet (client_v1 w) tt with
    | (Ret posted, _, t) =>
        (Ret tt, if truthy posted then set_last_tweet_time now st else st, t)
    | (Raise e, _, t) => (Raise e, st, t)
    end
  else (Ret tt, st, []).
Proof.
  intros Hnow. unfold cycle, markRan. py_unfold. rewrite Hnow.
  destruct (isDue (last_tweet_time st) TWEET_INTERVAL now); [|reflexivity].
  destruct (post_tweet (client_v1 w) tt) as [[[posted|e] l] t]; [|reflexivity].
  destruct (truthy posted); cbn; by rewrite app_nil_r.
Qed.

Lemma cycle_clock_raise (w : TickWorld) (st : BotState) (e : exn) :
  time_time w = Raise e -> cycle w st = (Raise e, st, []).
Proof. intros He. unfold cycle. py_unfold. by rewrite He. Qed.

(** No cycle touches the error counter or the threshold. *)
Lemma cycle_keeps_counter (w : TickWorld) (st : BotState) :
  consecutive_errors (locals (cycle w st)) = consecutive_errors st /\
  max_errors (locals (cycle w st)) = max_errors st.
Proof.
  destruct (time_time w) as [now|e] eqn:Hnow.
  - rewrite (cycle_run _ _ _ Hnow).
    destruct (isDue (last_tweet_time st) TWEET_INTERVAL now); [|done].
    destruct (post_tweet (client_v1 w) tt) as [[[posted|e] l] t]; [|done].
    by destruct (truthy posted).
  - by rewrite (cycle_clock_raise _ _ _ Hnow).
Qed.

Lemma sleeps_app (t1 t2 : list event) : sleeps (t1 ++ t2) = sleeps t1 ++ sleeps t2.
Proof.
  induction t1 as [|ev t1 IH]; [reflexivity|].
  destruct ev; cbn; by rewrite ?IH.
Qed.

Lemma printed_app (t1 t2 : list event) :
  printed (t1 ++ t2) = printed t1 ++ printed t2.
Proof.
  induction t1 as [|ev t1 IH]; [reflexivity|].
  destruct ev; cbn; by rewrite ?IH.
Qed.

(** ** Failures that an action absorbs *)




(** ** The backoff *)




(** ** The error counter *)

(** C3: after a pass, the counter is 0 when the cycle completed (one more
    only if the wait that follows the cycle itself raised an exception),
    and the value before the pass plus one when the cycle raised an
    exception into the loop, however many calls failed inside the cycle;
    an interrupt adds nothing. *)
Theorem counter_reset_or_incremented_once (w : TickWorld) (st : BotState) :
  consecutive_errors (locals (tick w st)) =
  match outcome (cycle w st) with
  | Ret _ =>
      match cycle_nap w with
      | Ret _ => 0
      | Raise e' => if is_Exception e' then 1 else 0
      end
  | Raise e => consecutive_errors st + (if is_Exception e then 1 else 0)
  end.
Proof.
  pose proof (cycle_keeps_counter w st) as [Hc Hm].
  rewrite tick_run, tick_try_run.
  destruct (cycle w st) as [[[[]|e] st1] t1]; cbn [outcome locals fst snd] in *.
  - destruct (cycle_nap w) as [[]|e']; [reflexivity|].
    destruct (is_Exception e'); [|reflexivity].
    rewrite on_error_run. cbv zeta.
    by destruct (_ <=? _).
  - destruct (is_Exception e); [|cbn; lia].
    rewrite on_error_run. cbv zeta. rewrite <- Hc.
    by destruct (_ <=? _).
Qed.

(** ** The cadence *)

(** C4, as the code has it: [isDue] is true iff
    [now - lastRunAt >= minInterval]; there is no unset state: an action
    that never ran has [lastRunAt = 0], the initial [last_tweet_time], and
    is due iff [now >= minInterval].  With [minInterval > 0], [isDue] is
    false right after [markRan] and is true again exactly from
    [minInterval] seconds after it. *)
Theorem isDue_spec (st : BotState) (last_run_at min_interval now : Z) :
  0 < min_interval ->
  (isDue last_run_at min_interval now = true <-> now - last_run_at >= min_interval) /\
  (isDue (last_tweet_time init) min_interval now = true <-> now >= min_interval) /\
  isDue (last_tweet_time (locals (markRan now st))) min_interval now = false /\
  (forall later,
     isDue (last_tweet_time (locals (markRan now st))) min_interval later = true
     <-> later - now >= min_interval).
Proof.
  intros Hpos. rewrite markRan_run. unfold isDue. cbn.
  rewrite Z.leb_gt. split; [|split; [|split]].
  - rewrite Z.leb_le. lia.
  - rewrite Z.leb_le. lia.
  - lia.
  - intros later. rewrite Z.leb_le. lia.
Qed.

Lemma isDue_spec_witness :
  (isDue 1700000000 TWEET_INTERVAL 1700003600 = true
   <-> 1700003600 - 1700000000 >= TWEET_INTERVAL) /\
  isDue (last_tweet_time (locals (markRan 1700000000 init))) TWEET_INTERVAL 1700000000
    = false.
Proof.
  pose proof (isDue_spec init 1700000000 TWEET_INTERVAL 1700003600 eq_refl)
    as (H1 & _).
  pose proof (isDue_spec init 0 TWEET_INTERVAL 1700000000 eq_refl)
    as (_ & _ & H3 & _).
  split; [exact H1 | exact H3].
Defined.

(** C4 as the spec states it fails: the action that never ran is not due
    at a clock reading below its interval, and the first pass at such a
    reading makes no call. *)
Lemma never_run_not_due_early_clock :
  last_tweet_time init = 0 /\
  isDue (last_tweet_time init) TWEET_INTERVAL 100 = false /\
  cycle (calm_tick 100 (answer_id "1")) init = (Ret tt, init, []).
Proof. vm_compute. done. Qed.

(** C5, as the code has it: a cycle sets [last_tweet_time] to the clock
    reading exactly when the action was due and [create_tweet] answered
    with a tweet id.  It is left alone when the action was not due (no call
    is made then) and on every failure, whatever its class. *)
Theorem markRan_iff_posted (w : TickWorld) (st : BotState) (now : Z) :
  time_time w = Ret now ->
  locals (cycle w st) =
    (if isDue (last_tweet_time st) TWEET_INTERVAL now
        && tweet_posted (create_tweet (client_v1 w))
     then set_last_tweet_time now st else st) /\
  trace (cycle w st) =
    (if isDue (last_tweet_time st) TWEET_INTERVAL now
     then trace (post_tweet (client_v1 w) tt) else []).
Proof.
  intros Hnow. rewrite (cycle_run _ _ _ Hnow).
  destruct (isDue (last_tweet_time st) TWEET_INTERVAL now); [|done].
  pose proof (post_tweet_truthy (client_v1 w)) as Hp.
  destruct (post_tweet (client_v1 w) tt) as [[[posted|e] l] t];
    cbn [outcome locals trace fst snd andb] in *.
  - by rewrite Hp.
  - destruct Hp as [-> _]. done.
Qed.

Lemma markRan_iff_posted_witness :
  locals (cycle (calm_tick 1700000000 (answer_id "1")) init) =
    set_last_tweet_time 1700000000 init /\
  trace (cycle (calm_tick 1700000000 (answer_id "1")) init) =
    trace (post_tweet {| tweet_pick := 0; create_tweet := answer_id "1" |} tt).
Proof.
  exact (markRan_iff_posted (calm_tick 1700000000 (answer_id "1")) init
           1700000000 eq_refl).
Defined.

(** C5 as the spec states it fails: the post was due and was attempted,
    the collaborator refused it (forbidden, an error that no immediate
    retry can cure), and [last_tweet_time] was not set. *)
Lemma forbidden_post_not_marked :
  let w := calm_tick 1700000000 (Raise forbidden) in
  isDue (last_tweet_time init) TWEET_INTERVAL 1700000000 = true /\
  api_calls (trace (cycle w init)) = [CreateTweet (random_choice 0 TWEETS) None] /\
  outcome (cycle w init) = Ret tt /\
  last_tweet_time (locals (cycle w init)) = 0 /\
  last_tweet_time (locals (cycle w init)) <> 1700000000.
Proof. vm_compute. repeat split. discriminate. Qed.

(** ** Stopping from the keyboard *)

(** An interrupt during the steady-state sleep leaves the loop through
    [except KeyboardInterrupt]: the goodbye line is printed, nothing more
    is done, and [last_tweet_time] is what the cycle left. *)
Lemma interrupt_in_cycle_sleep_stops
    (w : TickWorld) (st st1 : BotState) (t1 : list event) (e : exn) :
  cycle w st = (Ret tt, st1, t1) ->
  cycle_nap w = Raise e ->
  is_Exception e = false ->
  tick w st =
  (Ret Break, set_consecutive_errors 0 st1,
   (t1 ++ [Log INFO "Waiting for next check..."; Sleep 100])
   ++ [Stdout "Bot stopped by user. Goodbye!"]) /\
  last_tweet_time (locals (tick w st)) = last_tweet_time st1.
Proof.
  intros Hc Hnap He. rewrite tick_run, tick_try_run, Hc, Hnap, He. done.
Qed.

(** An interrupt during the backoff sleep is raised inside the handler of
    [except Exception], where no clause of the same [try] applies: it
    leaves the pass, and nothing is printed. *)
Lemma interrupt_in_backoff_sleep_raises
    (w : TickWorld) (st st1 : BotState) (e e' : exn) (t1 : list event) :
  tick_try w st = (Raise e, st1, t1) ->
  is_Exception e = true ->
  consecutive_errors st1 + 1 < max_errors st1 ->
  backoff_nap w = Raise e' ->
  outcome (tick w st) = Raise e' /\
  printed (trace (tick w st)) = printed t1 /\
  last_tweet_time (locals (tick w st)) = last_tweet_time st1.
Proof.
  intros Htry He Hn Hnap. rewrite tick_run, Htry, He, on_error_run. cbv zeta.
  rewrite (proj2 (Z.leb_gt _ _) Hn), Hnap. cbn [outcome trace locals after fst snd].
  split; [reflexivity|]. split; [|reflexivity].
  rewrite printed_app. cbn. by rewrite app_nil_r.
Qed.

(** C6 at its failing input: the bot posts, then a cycle raises an
    exception into the loop, and the interrupt arrives during the backoff
    sleep.  That sleep is inside the handler, out of reach of
    [except KeyboardInterrupt]: [run_bot] ends by the exception and the
    goodbye line is never printed.  The same interrupt during the
    steady-state sleep stops the bot as the claim says. *)
Theorem interrupt_in_backoff_sleep_escapes :
  let posting := calm_tick 1700000000 (answer_id "1") in
  let r := run_bot (connected [posting; failing_tick (Raise interrupt)]) init in
  let r' := run_bot (connected [posting; interrupted_wait 1700000100 (answer_id "2")]) init in
  (outcome r = Raise interrupt /\
   sleeps (trace r) = [100; 300] /\
   printed (trace r) =
     ["Starting Twitter bot..."; "Bot is now running! Press CTRL+C to stop."] /\
   last_tweet_time (locals r) = 1700000000) /\
  (outcome r' = Ret Stopped /\
   sleeps (trace r') = [100; 100] /\
   printed (trace r') =
     ["Starting Twitter bot..."; "Bot is now running! Press CTRL+C to stop.";
      "Bot stopped by user. Goodbye!"] /\
   last_tweet_time (locals r') = 1700000000).
Proof. vm_compute. done. Qed.

(** ** Authentication *)

Lemma missing_vars_nil (environ : gmap string string) :
  credentials_present environ = true -> missing_vars environ = [].
Proof.
  unfold credentials_present, missing_vars.
  induction required_vars as [|var vars IH]; [done|].
  cbn [forallb List.filter]. intros [Hv Hvs]%andb_prop.
  rewrite Hv. cbn. auto.
Qed.

Lemma missing_vars_cons (environ : gmap string string) (var : string) :
  In var required_vars ->
  truthy (getenv environ var) = false ->
  truthy (missing_vars environ) = true.
Proof.
  intros Hin Hv.
  assert (In var (missing_vars environ)) as Hm.
  { apply filter_In. split; [done|]. by rewrite Hv. }
  by destruct (missing_vars environ).
Qed.

(** C8 at its failing inputs: when a required variable is missing (unset
    or empty), [authenticate_twitter] returns a pair, the unpacking into
    three names in [run_bot] raises [ValueError] outside of any [try], and
    [run_bot] ends by that exception: no call was made to the collaborator,
    and the status line of line 277 is never printed. *)
Theorem missing_credentials_crash (w : World) (var : string) :
  In var required_vars ->
  truthy (getenv (environ w) var) = false ->
  run_bot w init =
  (Raise (Exn OtherException "not enough values to unpack (expected 3, got 2)"),
   init,
   [ Stdout "Starting Twitter bot...";
     Log ERROR ("Missing environment variables: "
                +:+ String.concat ", " (missing_vars (environ w)));
     Log ERROR "Create a .env file with these variables or set them in your environment" ]).
Proof.
  intros Hin Hv. pose proof (missing_vars_cons _ _ Hin Hv) as Hm.
  unfold run_bot, authenticate_twitter, get_credentials.
  fold (missing_vars (environ w)). py_unfold. rewrite Hm.
  reflexivity.
Qed.

Lemma missing_credentials_crash_witness :
  run_bot no_bearer_token init =
  (Raise (Exn OtherException "not enough values to unpack (expected 3, got 2)"),
   init,
   [ Stdout "Starting Twitter bot...";
     Log ERROR ("Missing environment variables: "
                +:+ String.concat ", " (missing_vars (environ no_bearer_token)));
     Log ERROR "Create a .env file with these variables or set them in your environment" ]).
Proof.
  apply (missing_credentials_crash no_bearer_token "TWITTER_BEARER_TOKEN").
  - cbn. tauto.
  - vm_compute. reflexivity.
Defined.

(** The sibling path: with every variable set, a [TweepyException] of the
    credential check makes [authenticate_twitter] return three [None]s,
    and [run_bot] prints its status line and returns before the loop. *)
Lemma rejected_credentials_return (w : World) (e : exn) :
  credentials_present (environ w) = true ->
  auth_get_me w = Raise e ->
  is_TweepyException e = true ->
  run_bot w init =
  (Ret AuthFailed, init,
   [ Stdout "Starting Twitter bot..."; Api GetMe;
     Log ERROR ("Authentication failed: " +:+ exn_str e);
     Stdout "Error: Could not authenticate with Twitter API" ]).
Proof.
  intros Hp Hme He. apply missing_vars_nil in Hp.
  unfold run_bot, authenticate_twitter, get_credentials.
  fold (missing_vars (environ w)). rewrite Hp. py_unfold. rewrite Hme.
  cbn. rewrite He. reflexivity.
Qed.

(** ** Exceptions of the actions *)

Ltac absorb_cases :=
  intros l; rewrite try_except_run;
  match goal with
  | |- context [match ?body l with _ => _ end] =>
      destruct (body l) as [[[a|[[] s]] l1] t1]
  end;
  try reflexivity; py_unfold; cbn; try reflexivity; eauto.

Lemma post_tweet_absorbs (client : PostWorld) :
  absorbs (post_tweet client)
          (post_tweet_try client (random_choice (tweet_pick client) TWEETS)) None.
Proof. unfold post_tweet. absorb_cases. Qed.

Lemma like_tweets_absorbs (w : LikeWorld) :
  absorbs (like_tweets w)
          (like_tweets_try w (random_choice (hashtag_pick w) HASHTAGS_TO_LIKE)) 0.
Proof. unfold like_tweets. absorb_cases. Qed.

Lemma reply_to_mentions_absorbs (client : MentionsWorld) (since_id : option Z) :
  absorbs (reply_to_mentions client since_id)
          (reply_to_mentions_try client since_id) since_id.
Proof. unfold reply_to_mentions. absorb_cases. Qed.

Lemma follow_back_users_absorbs (w : FollowWorld) :
  absorbs (follow_back_users w) (follow_back_users_try w) 0.
Proof. unfold follow_back_users. absorb_cases. Qed.

(** What an absorbing function raises is not an [Exception]. *)
Lemma absorbs_raise {L A} (f body : Py L A) (sentinel : A) (l : L) (e : exn) :
  absorbs f body sentinel -> outcome (f l) = Raise e -> is_Exception e = false.
Proof.
  intros Habs Hf. specialize (Habs l).
  destruct (body l) as [[[a|e'] l1] t1].
  - by rewrite Habs in Hf.
  - destruct (is_Exception e') eqn:He'.
    + destruct Habs as (lvl & msg & Habs). by rewrite Habs in Hf.
    + rewrite Habs in Hf. cbn in Hf. congruence.
Qed.

(** C10, as the code has it: each of the four actions is its [try] body
    under clauses that catch every [Exception] that leaves the body and
    return the sentinel ([None], 0, the [since_id] given, 0) after logging
    it; so what an action raises into its caller is never an [Exception]:
    it can only be a [KeyboardInterrupt]. *)
Theorem actions_raise_no_Exception :
  (forall client, absorbs (post_tweet client)
     (post_tweet_try client (random_choice (tweet_pick client) TWEETS)) None) /\
  (forall w, absorbs (like_tweets w)
     (like_tweets_try w (random_choice (hashtag_pick w) HASHTAGS_TO_LIKE)) 0) /\
  (forall client since, absorbs (reply_to_mentions client since)
     (reply_to_mentions_try client since) since) /\
  (forall w, absorbs (follow_back_users w) (follow_back_users_try w) 0) /\
  (forall client l, match outcome (post_tweet client l) with
                    | Ret _ => True | Raise e => is_Exception e = false end) /\
  (forall w l, match outcome (like_tweets w l) with
               | Ret _ => True | Raise e => is_Exception e = false end) /\
  (forall client since l,
     match outcome (reply_to_mentions client since l) with
     | Ret _ => True | Raise e => is_Exception e = false end) /\
  (forall w l, match outcome (follow_back_users w l) with
               | Ret _ => True | Raise e => is_Exception e = false end).
Proof.
  split; [exact post_tweet_absorbs|].
  split; [exact like_tweets_absorbs|].
  split; [exact reply_to_mentions_absorbs|].
  split; [exact follow_back_users_absorbs|].
  split; [|split; [|split]].
  - intros client l. destruct (outcome (post_tweet client l)) eqn:H; [done|].
    eapply absorbs_raise; [apply post_tweet_absorbs | exact H].
  - intros w l. destruct (outcome (like_tweets w l)) eqn:H; [done|].
    eapply absorbs_raise; [apply like_tweets_absorbs | exact H].
  - intros client since l.
    destruct (outcome (reply_to_mentions client since l)) eqn:H; [done|].
    eapply absorbs_raise; [apply reply_to_mentions_absorbs | exact H].
  - intros w l. destruct (outcome (follow_back_users w l)) eqn:H; [done|].
    eapply absorbs_raise; [apply follow_back_users_absorbs | exact H].
Qed.

(** C10 as the spec states it fails: an interrupt from the keyboard while
    [create_tweet] is in flight is raised by [post_tweet] into the loop,
    whose [except KeyboardInterrupt] then stops the bot. *)
Lemma interrupt_leaves_post_tweet :
  outcome (post_tweet {| tweet_pick := 0; create_tweet := Raise interrupt |} tt)
    = Raise interrupt /\
  outcome (cycle (calm_tick 1700000000 (Raise interrupt)) init) = Raise interrupt /\
  outcome (tick (calm_tick 1700000000 (Raise interrupt)) init) = Ret Break.
Proof. vm_compute. done. Qed.

(** ** Tweets that are liked already *)

Lemma for_each_cons {L A} (x : A) (rest : list A) (body : A -> Py L ctl) (l : L) :
  for_each (x :: rest) body l =
  match body x l with
  | (Ret Continue, l1, t1) => after t1 (for_each rest body l1)
  | (Ret Break, l1, t1) => (Ret tt, l1, t1)
  | (Raise e, l1, t1) => (Raise e, l1, t1)
  end.
Proof.
  cbn [for_each]. rewrite bind_run.
  destruct (body x l) as [[[[]|e] l1] t1]; try reflexivity.
  unfold after. cbn. by rewrite app_nil_r.
Qed.

Lemma like_tweets_try_run (w : LikeWorld) (hashtag : string) (l0 : Z)
    (tweets : list Tweet) :
  search_recent_tweets w = Ret (Some tweets) ->
  truthy tweets = true ->
  like_tweets_try w hashtag l0 =
  after [Api (SearchRecentTweets ("#" +:+ hashtag +:+ " -is:retweet lang:en"))]
        ((for_each (take MAX_LIKES_PER_RUN tweets) (like_one hashtag);; get) 0).
Proof.
  intros Hsearch Htweets. unfold like_tweets_try.
  rewrite bind_run. unfold call. rewrite bind_run. cbn [emit].
  unfold ext at 1. rewrite Hsearch. cbn [after outcome locals trace fst snd].
  change (truthy (Some tweets)) with (truthy tweets). rewrite Htweets.
  cbn [negb default]. rewrite bind_run. cbn [put].
  rewrite after_nil. reflexivity.
Qed.

(** C7: when [create_favorite] raises a [TweepyException] whose message,
    in lower case, contains "already favorited", the tweet is logged at
    level INFO as liked already, [liked_count] stays, no exception leaves
    the loop body, and the loop goes on with the tweets that remain; so
    the error never reaches the caller of [like_tweets], where alone the
    error counter is kept. *)
Theorem already_favorited_is_noop
    (w : LikeWorld) (hashtag : string) (tweet : Tweet) (rest : list Tweet)
    (e : exn) (liked_count l0 : Z) :
  create_favorite tweet = Raise e ->
  is_TweepyException e = true ->
  str_in "already favorited" (lower (exn_str e)) = true ->
  let note :=
    [ Api (CreateFavorite (tweet_id tweet));
      Log INFO ("Tweet already liked (ID: " +:+ pretty (tweet_id tweet) +:+ ")") ] in
  like_one hashtag tweet liked_count = (Ret Continue, liked_count, note) /\
  for_each (tweet :: rest) (like_one hashtag) liked_count =
    after note (for_each rest (like_one hashtag) liked_count) /\
  (search_recent_tweets w = Ret (Some (tweet :: rest)) ->
   like_tweets_try w hashtag l0 =
     after (Api (SearchRecentTweets ("#" +:+ hashtag +:+ " -is:retweet lang:en")) :: note)
           ((for_each (take 2 rest) (like_one hashtag);; get) 0)).
Proof.
  intros Hfav He Hmsg note.
  assert (like_one hashtag tweet liked_count = (Ret Continue, liked_count, note))
    as Hone.
  { unfold like_one. rewrite try_except_run. py_unfold. rewrite Hfav.
    cbn [first_match]. rewrite He, Hmsg. reflexivity. }
  split; [exact Hone|]. split.
  - by rewrite for_each_cons, Hone.
  - intros Hsearch.
    rewrite (like_tweets_try_run _ _ _ _ Hsearch eq_refl).
    change (take MAX_LIKES_PER_RUN (tweet :: rest)) with (tweet :: take 2 rest).
    assert (like_one hashtag tweet 0 = (Ret Continue, 0, note)) as Hone0.
    { unfold like_one. rewrite try_except_run. py_unfold. rewrite Hfav.
      cbn [first_match]. rewrite He, Hmsg. reflexivity. }
    rewrite bind_run, for_each_cons, Hone0.
    rewrite (bind_run (for_each (take 2 rest) (like_one hashtag))).
    destruct (for_each (take 2 rest) (like_one hashtag) 0) as [[[[]|e'] l1] t1];
      reflexivity.
Qed.

Lemma already_favorited_is_noop_witness :
  like_one "python" (liked_tweet 7) 1 =
    (Ret Continue, 1,
     [ Api (CreateFavorite 7); Log INFO ("Tweet already liked (ID: " +:+ pretty 7 +:+ ")") ]) /\
  outcome (like_tweets_try (search_finds [liked_tweet 7; fresh_tweet 8]) "python" 0)
    = Ret 1.
Proof.
  pose proof (already_favorited_is_noop
                (search_finds [liked_tweet 7; fresh_tweet 8]) "python"
                (liked_tweet 7) [fresh_tweet 8] liked_already 1 0
                eq_refl eq_refl eq_refl) as (Hone & _ & Htry).
  split; [exact Hone|]. rewrite (Htry eq_refl). reflexivity.
Defined.

(** The scenario of the spec, on the code: of three candidates two are
    liked already and one fails otherwise; [like_tweets] returns 0 to its
    caller and raises nothing. *)
Lemma two_liked_already_one_unreachable :
  outcome (like_tweets
             (search_finds [liked_tweet 7; unreachable_tweet 8; liked_tweet 9]) 0)
    = Ret 0.
Proof. vm_compute. reflexivity. Qed.

(** ** The mention cursor *)

Lemma unset_or_gt_run {L} (a : Z) (x : option Z) (l : L) :
  unset_or_gt a x l = (Ret (newer a x), l, []).
Proof.
  unfold unset_or_gt, newer. destruct x as [b|]; [|reflexivity].
  change (truthy (Some b)) with (negb (b =? 0)).
  by destruct (b =? 0).
Qed.

(** Looking up the author and replying assigns no local variable. *)
Lemma send_reply_locals (incl : option (gmap string (list User)))
    (mention : Mention) (l : option Z) :
  locals (send_reply incl mention l) = l.
Proof.
  unfold send_reply, attr. py_unfold.
  destruct (negb (truthy (username_from_includes incl (author_id mention)))).
  - destruct (get_user mention) as [[u|]|e]; try reflexivity.
    destruct (reply_tweet mention) as [[]|e1].
    + destruct (reply_nap mention) as [[]|e2]; [reflexivity|].
      cbn. destruct (is_Exception e2); reflexivity.
    + cbn. destruct (is_Exception e1); reflexivity.
  - destruct (reply_tweet mention) as [[]|e1].
    + destruct (reply_nap mention) as [[]|e2]; [reflexivity|].
      cbn. destruct (is_Exception e2); reflexivity.
    + cbn. destruct (is_Exception e1); reflexivity.
Qed.

(** One turn of the loop moves [new_since_id] to the mention's id exactly
    when that id is newer than both [since_id] and [new_since_id]. *)
Lemma reply_one_locals (since : option Z) (incl : option (gmap string (list User)))
    (mention : Mention) (new : option Z) :
  locals (reply_one since incl mention new) =
  if newer (mention_id mention) since && newer (mention_id mention) new
  then Some (mention_id mention) else new.
Proof.
  unfold reply_one. rewrite bind_run, unset_or_gt_run.
  destruct (newer (mention_id mention) since); [|reflexivity].
  rewrite bind_run. cbn [get]. rewrite bind_run, unset_or_gt_run.
  cbn [andb]. rewrite bind_run.
  destruct (newer (mention_id mention) new); cbn [put mret Py_ret];
    rewrite bind_run;
    match goal with
    | |- context [send_reply incl mention ?l] =>
        pose proof (send_reply_locals incl mention l) as Hl;
        destruct (send_reply incl mention l) as [[[[]|e] l1] t1]
    end; exact Hl.
Qed.

(** An invariant of the local variables that every turn keeps holds when
    a [for] loop ends, however it ends. *)
Lemma for_each_invariant {L A} (I : L -> Prop) (items : list A)
    (body : A -> Py L ctl) :
  (forall x l, x ∈ items -> I l -> I (locals (body x l))) ->
  forall l, I l -> I (locals (for_each items body l)).
Proof.
  induction items as [|x rest IH]; intros Hbody l Hl; [exact Hl|].
  rewrite for_each_cons.
  pose proof (Hbody x l (list_elem_of_here x rest) Hl) as Hx.
  destruct (body x l) as [[[[]|e] l1] t1]; cbn [locals fst snd] in Hx; try exact Hx.
  apply IH; [|exact Hx].
  intros y l' Hy. apply Hbody. by apply list_elem_of_further.
Qed.

Lemma cursor_le_refl (a : option Z) : cursor_le a a.
Proof. destruct a; cbn; [lia|done]. Qed.

Lemma cursor_lt_le (a b : option Z) : cursor_lt a b -> cursor_le a b.
Proof. destruct a, b; cbn; try done. lia. Qed.

Lemma reply_one_inv (since : option Z) (incl : option (gmap string (list User)))
    (found : list Mention) (mention : Mention) (new : option Z) :
  mention ∈ found ->
  since <> Some 0 \/ 0 < mention_id mention ->
  cursor_inv since found new ->
  cursor_inv since found (locals (reply_one since incl mention new)).
Proof.
  intros Hin Hpos Hinv. rewrite reply_one_locals.
  destruct (newer (mention_id mention) since) eqn:Hs; [|exact Hinv].
  destruct (newer (mention_id mention) new); [|exact Hinv]. cbn [andb].
  assert (cursor_lt since (Some (mention_id mention))) as Hlt.
  { destruct since as [s|]; [|done]. cbn in *.
    destruct (Z.eqb_spec s 0) as [->|Hz].
    - destruct Hpos as [Hne|Hpos]; [done | exact Hpos].
    - by apply Z.ltb_lt. }
  split; [by apply cursor_lt_le|]. right. split; [exact Hlt|]. eauto.
Qed.

Lemma reply_to_mentions_try_run (client : MentionsWorld) (since l0 : option Z) :
  reply_to_mentions_try client since l0 =
  match mw_get_me client with
  | Raise e => (Raise e, l0, [Api GetMe])
  | Ret None =>
      (Raise (Exn OtherException "'NoneType' object has no attribute 'id'"),
       l0, [Api GetMe])
  | Ret (Some _) =>
      let asked := Api (GetUsersMentions (if truthy since then since else None)) in
      match get_users_mentions client with
      | Raise e => (Raise e, l0, [Api GetMe; asked])
      | Ret ms =>
          if negb (truthy (mentions_data ms)) then
            (Ret since, l0, [Api GetMe; asked; Log INFO "No new mentions found"])
          else
            let found := default [] (mentions_data ms) in
            after [ Api GetMe; asked;
                    Log INFO ("Found " +:+ pretty (length found)
                              +:+ " mentions to process") ]
              match for_each found (reply_one since (includes ms)) since with
              | (Ret _, l1, t1) => (Ret l1, l1, t1)
              | (Raise e, l1, t1) => (Raise e, l1, t1)
              end
      end
  end.
Proof.
  unfold reply_to_mentions_try, attr. py_unfold.
  destruct (mw_get_me client) as [[me|]|e]; try reflexivity.
  destruct (get_users_mentions client) as [ms|e]; try reflexivity.
  destruct (negb (truthy (mentions_data ms))); [reflexivity|].
  destruct (for_each _ _ since) as [[[[]|e] l1] t1]; cbn; by rewrite ?app_nil_r.
Qed.

(** A reply that fails by an [Exception] is caught at lines 219-220: it
    does not leave the body of the loop. *)
Lemma send_reply_absorbs (incl : option (gmap string (list User)))
    (mention : Mention) (l : option Z) (e : exn) :
  author_known incl mention ->
  reply_tweet mention = Raise e ->
  is_Exception e = true ->
  outcome (send_reply incl mention l) = Ret tt.
Proof.
  intros Hknown Hreply He. unfold send_reply, attr. py_unfold.
  destruct Hknown as [Hfound|[user Huser]].
  - rewrite Hfound. cbn [negb]. rewrite Hreply. cbn. by rewrite He.
  - destruct (negb (truthy (username_from_includes incl (author_id mention))));
      rewrite ?Huser, Hreply; cbn; by rewrite He.
Qed.

(** C9, as the code has it: for a [since_id] other than 0, or when the
    mentions returned have positive ids, the value [reply_to_mentions]
    returns is never below the [since_id] given; when it differs, it is
    the id of one of the mentions returned and is strictly above
    [since_id]; and when an [Exception] (a rate limit or any other) leaves
    the body of the [try] and reaches the handlers of lines 223-228, the
    [since_id] given comes back unchanged.  A reply that is attempted, the
    author's name being known, and fails, by a rate limit or otherwise, is
    not such an error: it is caught at lines 219-220, the loop goes on,
    and the cursor moves to the mention's id as lines 193-195 decide,
    whatever became of the reply. *)
Theorem mention_cursor_monotone (client : MentionsWorld) (since l0 : option Z) :
  (since <> Some 0 \/
   forall ms, get_users_mentions client = Ret ms ->
              Forall (fun m => 0 < mention_id m) (default [] (mentions_data ms))) ->
  match reply_to_mentions_try client since l0 with
  | (Ret v, _, _) =>
      outcome (reply_to_mentions client since l0) = Ret v /\
      cursor_le since v /\
      (v = since \/
       cursor_lt since v /\
       exists ms m, get_users_mentions client = Ret ms /\
                    m ∈ default [] (mentions_data ms) /\
                    v = Some (mention_id m))
  | (Raise e, _, _) =>
      outcome (reply_to_mentions client since l0) =
      if is_Exception e then Ret since else Raise e
  end /\
  (forall incl mention new,
     locals (reply_one since incl mention new) = advance since new mention) /\
  (forall incl mention new e,
     author_known incl mention ->
     reply_tweet mention = Raise e ->
     is_Exception e = true ->
     outcome (reply_one since incl mention new) = Ret Continue).
Proof.
  intros Hpos. split; [|split].
  - pose proof (reply_to_mentions_absorbs client since l0) as Habs.
    pose proof (reply_to_mentions_try_run client since l0) as Hrun.
    destruct (reply_to_mentions_try client since l0) as [[[v|e] l1] t1].
    + split; [by rewrite Habs|].
      destruct (mw_get_me client) as [[me|]|e]; try discriminate Hrun.
      cbv zeta in Hrun.
      destruct (get_users_mentions client) as [ms|e] eqn:Hms; try discriminate Hrun.
      destruct (negb (truthy (mentions_data ms))).
      { injection Hrun as -> _ _. split; [apply cursor_le_refl | by left]. }
      set (found := default [] (mentions_data ms)) in *.
      assert (cursor_inv since found
                (locals (for_each found (reply_one since (includes ms)) since)))
        as [Hle Hfrom].
      { apply for_each_invariant.
        - intros m l Hm. apply reply_one_inv; [exact Hm|].
          destruct Hpos as [Hne|Hpos]; [by left|right].
          by apply (proj1 (Forall_forall _ _) (Hpos ms eq_refl)).
        - split; [apply cursor_le_refl | by left]. }
      destruct (for_each found _ since) as [[[[]|e] l2] t2];
        [|discriminate Hrun].
      cbn in Hrun, Hle, Hfrom. injection Hrun as -> _ _.
      split; [exact Hle|].
      destruct Hfrom as [->|[Hlt (m & Hm & ->)]]; [by left|].
      right. split; [exact Hlt|]. eauto.
    + destruct (is_Exception e).
      * destruct Habs as (lvl & msg & ->). reflexivity.
      * by rewrite Habs.
  - intros incl mention new. apply reply_one_locals.
  - intros incl mention new e Hknown Hreply He.
    unfold reply_one. rewrite bind_run, unset_or_gt_run.
    destruct (newer (mention_id mention) since); [|reflexivity].
    rewrite bind_run. cbn [get]. rewrite bind_run, unset_or_gt_run.
    rewrite bind_run.
    destruct (newer (mention_id mention) new); cbn [put mret Py_ret];
      rewrite bind_run;
      match goal with
      | |- context [send_reply incl mention ?l] =>
          pose proof (send_reply_absorbs incl mention l e Hknown Hreply He) as Hsent;
          destruct (send_reply incl mention l) as [[[[]|e'] l1] t1]
      end; cbn in Hsent; try discriminate Hsent; reflexivity.
Qed.

Lemma mention_cursor_monotone_witness :
  outcome (reply_to_mentions
             (mentions_found [mention_of 12 (Ret tt); mention_of 11 (Raise rate_limit)])
             (Some 10) None) = Ret (Some 12) /\
  cursor_le (Some 10) (Some 12) /\
  outcome (reply_one (Some 10) None (mention_of 11 (Raise rate_limit)) (Some 10))
    = Ret Continue.
Proof.
  pose proof (mention_cursor_monotone
                (mentions_found [mention_of 12 (Ret tt); mention_of 11 (Raise rate_limit)])
                (Some 10) None) as H.
  destruct (reply_to_mentions_try _ (Some 10) None) as [[[v|e] l1] t1] eqn:E;
    vm_compute in E; [|discriminate E].
  injection E as <- _ _.
  destruct H as ((Hout & Hle & _) & _ & Hreply); [left; discriminate|].
  split; [exact Hout|]. split; [exact Hle|].
  apply (Hreply None (mention_of 11 (Raise rate_limit)) (Some 10) rate_limit);
    [right; by eexists | reflexivity | reflexivity].
Defined.

(** C9 as the spec states it fails: a reply that is rate limited does not
    give back the [since_id] given: from 10 the cursor goes to 12, the id
    of the mention whose reply failed.  And from a [since_id] of 0, which
    the tests of lines 193-194 take for unset, a mention with a negative
    id moves the cursor down. *)
Lemma failed_reply_moves_cursor :
  outcome (reply_to_mentions (mentions_found [mention_of 12 (Raise rate_limit)])
             (Some 10) None) = Ret (Some 12) /\
  Some 12 <> Some 10 /\
  outcome (reply_to_mentions (mentions_found [mention_of (-5) (Ret tt)])
             (Some 0) None) = Ret (Some (-5)) /\
  ~ cursor_le (Some 0) (Some (-5)).
Proof. vm_compute. repeat split; try discriminate. intros H. by apply H. Qed.

(** * Further properties of the code *)

(** ** The backoff formula *)

(** X1: from the first failure on, the wait of line 332 is at least 300 and at
    most 3600 seconds and never shrinks as failures accumulate; from the
    fifth on it is the cap. *)
Theorem wait_time_bounds (n : Z) :
  1 <= n ->
  300 <= wait_time n <= 3600 /\
  wait_time n <= wait_time (n + 1) /\
  (5 <= n -> wait_time n = 3600).
Proof.
  intros Hn. unfold wait_time.
  assert (1 <= 2 ^ (n - 1)) as Hp by (apply Z.pow_le_mono_r with (b := 0); lia).
  assert (2 ^ (n - 1) <= 2 ^ (n + 1 - 1)) as Hm
    by (apply Z.pow_le_mono_r; lia).
  split; [lia|]. split; [lia|].
  intros H5.
  assert (2 ^ 4 <= 2 ^ (n - 1)) as H16 by (apply Z.pow_le_mono_r; lia).
  change (2 ^ 4) with 16 in H16. lia.
Qed.

Lemma wait_time_bounds_witness :
  300 <= wait_time 3 <= 3600 /\ wait_time 3 <= wait_time (3 + 1).
Proof.
  pose proof (wait_time_bounds 3 ltac:(lia)) as (H1 & H2 & _).
  split; [exact H1 | exact H2].
Defined.

(** ** What post_tweet returns *)

(** X2: [post_tweet] returns a tweet id exactly when [create_tweet]
    returned a response whose [data] has the key "id", and then it is that
    id; a response without [data] or without that key gives [None], as
    does every [Exception] raised by the call, although in the first two
    cases the tweet was created; only what is not an [Exception] is
    raised. *)
Theorem post_tweet_returns_id (client : PostWorld) :
  outcome (post_tweet client tt) =
    match create_tweet client with
    | Ret response =>
        Ret (match data response with
             | Some d => d !! "id"
             | None => None
             end)
    | Raise e => if is_Exception e then Ret None else Raise e
    end /\
  forall id,
    outcome (post_tweet client tt) = Ret (Some id) <->
    exists response d,
      create_tweet client = Ret response /\ data response = Some d /\
      d !! "id" = Some id.
Proof.
  assert (outcome (post_tweet client tt) =
            match create_tweet client with
            | Ret response =>
                Ret (match data response with
                     | Some d => d !! "id"
                     | None => None
                     end)
            | Raise e => if is_Exception e then Ret None else Raise e
            end) as Hout.
  { destruct (create_tweet client) as [response|e] eqn:Hc.
    - unfold post_tweet, post_tweet_try, subscript. py_unfold. rewrite Hc.
      destruct (data response) as [d|]; [|reflexivity].
      destruct (d !! "id"); reflexivity.
    - rewrite (post_tweet_raise _ _ Hc). cbv zeta.
      destruct (is_Exception e); reflexivity. }
  split; [exact Hout|].
  intros id. rewrite Hout.
  destruct (create_tweet client) as [response|e].
  - split.
    + intros [= Hid]. destruct (data response) as [d|] eqn:Hd; [|discriminate Hid].
      by exists response, d.
    + intros (r & d & [= <-] & Hd & Hid). by rewrite Hd, Hid.
  - split.
    + destruct (is_Exception e); discriminate.
    + intros (r & d & Hr & _). discriminate.
Qed.

(** ** Credentials and the start of run_bot *)

Lemma missing_vars_truthy (environ : gmap string string) :
  credentials_present environ = false -> truthy (missing_vars environ) = true.
Proof.
  unfold credentials_present, missing_vars.
  induction required_vars as [|var vars IH]; [done|].
  cbn [forallb List.filter].
  destruct (truthy (getenv environ var)); cbn; [exact IH | done].
Qed.

(** A variable that passed the check of [get_credentials] has a value,
    which is the one stored in the dictionary. *)
Lemma getenv_present (environ : gmap string string) (var : string) :
  truthy (getenv environ var) = true ->
  Some (default "" (getenv environ var)) = getenv environ var.
Proof. by destruct (getenv environ var). Qed.

(** X3: [get_credentials] returns [None], after two error records that name
    the variables at fault, exactly when a required variable is unset or
    empty; otherwise it logs nothing and returns a dictionary that gives,
    under each of its five keys, the value of the matching variable. *)
Theorem get_credentials_spec (environ : gmap string string) :
  (forall var, In var (missing_vars environ) <->
               In var required_vars /\
               (getenv environ var = None \/ getenv environ var = Some "")) /\
  if credentials_present environ then
    exists d,
      get_credentials environ tt = (Ret (Some d), tt, []) /\
      d !! "api_key" = getenv environ "TWITTER_API_KEY" /\
      d !! "api_secret" = getenv environ "TWITTER_API_SECRET" /\
      d !! "access_token" = getenv environ "TWITTER_ACCESS_TOKEN" /\
      d !! "access_secret" = getenv environ "TWITTER_ACCESS_SECRET" /\
      d !! "bearer_token" = getenv environ "TWITTER_BEARER_TOKEN"
  else
    get_credentials environ tt =
    (Ret None, tt,
     [ Log ERROR ("Missing environment variables: "
                  +:+ String.concat ", " (missing_vars environ));
       Log ERROR "Create a .env file with these variables or set them in your environment" ]).
Proof.
  split.
  - intros var. unfold missing_vars. rewrite filter_In.
    apply and_iff_compat_l.
    destruct (getenv environ var) as [v|]; cbn; [|naive_solver].
    unfold truthy, truthy_string. case_bool_decide as Hv; cbn.
    + subst v. naive_solver.
    + split; [done|]. intros [?|[= ?]]; done.
  - destruct (credentials_present environ) eqn:Hp.
    + pose proof Hp as Hall. unfold credentials_present in Hall.
      cbn [forallb required_vars] in Hall.
      repeat (apply andb_prop in Hall as [? Hall]).
      apply missing_vars_nil in Hp.
      unfold get_credentials. fold (missing_vars environ). rewrite Hp.
      eexists. split; [reflexivity|].
      repeat split;
        (etrans; [|apply getenv_present; eassumption]); reflexivity.
    + apply missing_vars_truthy in Hp.
      unfold get_credentials. fold (missing_vars environ). by rewrite Hp.
Qed.

(** X4: with every credential set, how [run_bot] starts is decided by the
    credential check [get_me]: a [TweepyException] gives the status line
    and a return; any other exception, and a response without [data],
    which raises [AttributeError], leave [run_bot] uncaught; a response
    with user data starts the loop on the initial state. *)
Theorem run_bot_start (w : World) :
  credentials_present (environ w) = true ->
  run_bot w init =
  match auth_get_me w with
  | Raise e =>
      if is_TweepyException e then
        (Ret AuthFailed, init,
         [ Stdout "Starting Twitter bot..."; Api GetMe;
           Log ERROR ("Authentication failed: " +:+ exn_str e);
           Stdout "Error: Could not authenticate with Twitter API" ])
      else (Raise e, init, [Stdout "Starting Twitter bot..."; Api GetMe])
  | Ret None =>
      (Raise (Exn OtherException "'NoneType' object has no attribute 'username'"),
       init, [Stdout "Starting Twitter bot..."; Api GetMe])
  | Ret (Some me) =>
      after [ Stdout "Starting Twitter bot..."; Api GetMe;
              Log INFO ("Connected as @" +:+ username me);
              Stdout "Bot is now running! Press CTRL+C to stop." ]
            (main_loop (ticks w) init)
  end.
Proof.
  intros Hp. apply missing_vars_nil in Hp.
  unfold run_bot, authenticate_twitter, get_credentials, attr.
  fold (missing_vars (environ w)). rewrite Hp. py_unfold.
  destruct (auth_get_me w) as [[me|]|e]; cbn.
  - destruct (main_loop (ticks w) init) as [[r l] t]. reflexivity.
  - reflexivity.
  - destruct (is_TweepyException e); reflexivity.
Qed.

Lemma run_bot_start_witness :
  run_bot (connected []) init =
  after [ Stdout "Starting Twitter bot..."; Api GetMe;
          Log INFO ("Connected as @" +:+ username bot_user);
          Stdout "Bot is now running! Press CTRL+C to stop." ]
        (main_loop [] init).
Proof. exact (run_bot_start (connected []) eq_refl). Defined.

(** ** One pass of the loop *)

Lemma api_calls_app (t1 t2 : list event) :
  api_calls (t1 ++ t2) = api_calls t1 ++ api_calls t2.
Proof.
  induction t1 as [|ev t1 IH]; [reflexivity|].
  destruct ev; cbn; by rewrite ?IH.
Qed.

(** [post_tweet] makes one call, and never sleeps. *)
Lemma post_tweet_trace (client : PostWorld) :
  api_calls (trace (post_tweet client tt)) =
    [CreateTweet (random_choice (tweet_pick client) TWEETS) None] /\
  sleeps (trace (post_tweet client tt)) = [].
Proof.
  destruct (create_tweet client) as [response|e] eqn:Hc.
  - unfold post_tweet, post_tweet_try, subscript. py_unfold. rewrite Hc.
    destruct (data response) as [d|]; [|done].
    by destruct (d !! "id").
  - rewrite (post_tweet_raise _ _ Hc). cbv zeta. unfold post_tweet_failure.
    destruct (is_Exception e); [|done].
    by destruct (is_TooManyRequests e), (is_Forbidden e).
Qed.

(** What a cycle does at clock reading [now]. *)
Lemma cycle_effect (w : TickWorld) (st : BotState) (now : Z) :
  time_time w = Ret now ->
  locals (cycle w st) =
    (if isDue (last_tweet_time st) TWEET_INTERVAL now
        && tweet_posted (create_tweet (client_v1 w))
     then set_last_tweet_time now st else st) /\
  trace (cycle w st) =
    (if isDue (last_tweet_time st) TWEET_INTERVAL now
     then trace (post_tweet (client_v1 w) tt) else []).
Proof.
  intros Hnow. rewrite (cycle_run _ _ _ Hnow).
  destruct (isDue (last_tweet_time st) TWEET_INTERVAL now); [|done].
  pose proof (post_tweet_truthy (client_v1 w)) as Hp.
  destruct (post_tweet (client_v1 w) tt) as [[[posted|e] l] t];
    cbn [outcome locals trace fst snd andb] in *.
  - by rewrite Hp.
  - destruct Hp as [-> _]. done.
Qed.

Lemma cycle_trace (w : TickWorld) (st : BotState) :
  trace (cycle w st) =
  match time_time w with
  | Ret now =>
      if isDue (last_tweet_time st) TWEET_INTERVAL now
      then trace (post_tweet (client_v1 w) tt) else []
  | Raise _ => []
  end.
Proof.
  destruct (time_time w) as [now|e] eqn:Hnow.
  - apply (cycle_effect _ _ _ Hnow).
  - by rewrite (cycle_clock_raise _ _ _ Hnow).
Qed.

(** What a pass adds to the trace of its cycle has no call in it. *)
Lemma tick_api_calls (w : TickWorld) (st : BotState) :
  api_calls (trace (tick w st)) = api_calls (trace (cycle w st)).
Proof.
  rewrite tick_run, tick_try_run.
  destruct (cycle w st) as [[[[]|e] st1] t1];
    [destruct (cycle_nap w) as [[]|e]|];
    try (destruct (is_Exception e);
         [rewrite on_error_run; cbv zeta; destruct (_ <=? _)|]);
    cbn [trace after locals outcome fst snd];
    rewrite ?api_calls_app; cbn; by rewrite ?app_nil_r.
Qed.

(** X5: a pass calls the collaborator at most once: one [create_tweet] when
    the post is due at the clock reading, whatever time has gone by since
    the last post, and nothing otherwise. *)
Theorem pass_posts_at_most_once (w : TickWorld) (st : BotState) :
  api_calls (trace (tick w st)) =
  match time_time w with
  | Ret now =>
      if isDue (last_tweet_time st) TWEET_INTERVAL now
      then [CreateTweet (random_choice (tweet_pick (client_v1 w)) TWEETS) None]
      else []
  | Raise _ => []
  end.
Proof.
  rewrite tick_api_calls, cycle_trace.
  destruct (time_time w) as [now|e]; [|reflexivity].
  destruct (isDue _ _ _); [|reflexivity].
  apply post_tweet_trace.
Qed.

(** A pass changes [last_tweet_time] only in its cycle, and the
    threshold never. *)
Lemma tick_keeps (w : TickWorld) (st : BotState) :
  last_tweet_time (locals (tick w st)) = last_tweet_time (locals (cycle w st)) /\
  max_errors (locals (tick w st)) = max_errors st.
Proof.
  pose proof (cycle_keeps_counter w st) as [_ Hm].
  rewrite tick_run, tick_try_run.
  destruct (cycle w st) as [[[[]|e] st1] t1]; cbn [locals fst snd] in *.
  - destruct (cycle_nap w) as [[]|e']; [done|].
    destruct (is_Exception e'); [|done].
    rewrite on_error_run. cbv zeta. by destruct (_ <=? _).
  - destruct (is_Exception e); [|done].
    rewrite on_error_run. cbv zeta. by destruct (_ <=? _).
Qed.

Lemma cycle_last_tweet_time (w : TickWorld) (st : BotState) :
  last_tweet_time (locals (cycle w st)) = last_tweet_time st \/
  last_tweet_time st + TWEET_INTERVAL <= last_tweet_time (locals (cycle w st)).
Proof.
  destruct (time_time w) as [now|e] eqn:Hnow.
  - destruct (cycle_effect w st now Hnow) as [-> _].
    destruct (isDue (last_tweet_time st) TWEET_INTERVAL now) eqn:Hdue; [|by left].
    destruct (tweet_posted _); [|by left].
    right. cbn. unfold isDue in Hdue. apply Z.leb_le in Hdue. lia.
  - left. by rewrite (cycle_clock_raise _ _ _ Hnow).
Qed.

Lemma main_loop_cons (w : TickWorld) (rest : list TickWorld) (st : BotState) :
  main_loop (w :: rest) st =
  match tick w st with
  | (Ret Continue, st1, t1) => after t1 (main_loop rest st1)
  | (Ret Break, st1, t1) => (Ret Stopped, st1, t1)
  | (Raise e, st1, t1) => (Raise e, st1, t1)
  end.
Proof.
  cbn [main_loop]. rewrite bind_run.
  destruct (tick w st) as [[[[]|e] st1] t1]; try reflexivity.
  unfold after. cbn. by rewrite app_nil_r.
Qed.

(** ** Runs of the loop *)

(** X6: over any run of the loop, [last_tweet_time] never goes back, and
    when it moves it moves by at least [TWEET_INTERVAL]: two posts that
    the bot records are an hour or more apart by its clock. *)
Theorem last_tweet_time_grows (ticks : list TickWorld) (st : BotState) :
  last_tweet_time (locals (main_loop ticks st)) = last_tweet_time st \/
  last_tweet_time st + TWEET_INTERVAL <= last_tweet_time (locals (main_loop ticks st)).
Proof.
  revert st. induction ticks as [|w rest IH]; intros st; [by left|].
  rewrite main_loop_cons.
  pose proof (tick_keeps w st) as [Hl _].
  pose proof (cycle_last_tweet_time w st) as Hc. rewrite <- Hl in Hc.
  assert (0 <= TWEET_INTERVAL) as Hpos by (unfold TWEET_INTERVAL; lia).
  destruct (tick w st) as [[[[]|e] st1] t1]; cbn [locals fst snd after] in *;
    try exact Hc.
  specialize (IH st1). lia.
Qed.

Lemma cycle_sleeps (w : TickWorld) (st : BotState) : sleeps (trace (cycle w st)) = [].
Proof.
  rewrite cycle_trace. destruct (time_time w) as [now|e]; [|reflexivity].
  destruct (isDue _ _ _); [|reflexivity]. apply post_tweet_trace.
Qed.

Lemma wait_time_in_loop_sleeps (n : Z) : 1 <= n <= 4 -> wait_time n ∈ loop_sleeps.
Proof.
  intros Hn. assert (n = 1 \/ n = 2 \/ n = 3 \/ n = 4) as Hcases by lia.
  unfold loop_sleeps.
  destruct Hcases as [Hn' | [Hn' | [Hn' | Hn']]]; rewrite Hn';
    change (wait_time 1) with 300; change (wait_time 2) with 600;
    change (wait_time 3) with 1200; change (wait_time 4) with 2400;
    repeat (first [apply list_elem_of_here | apply list_elem_of_further]).
Qed.

(** What one pass keeps: the counter stays between 0 and 5, is below 5
    whenever the loop goes on, and every sleep is one of five durations. *)
Lemma tick_loop_ok (w : TickWorld) (st : BotState) :
  loop_ok st ->
  max_errors (locals (tick w st)) = 5 /\
  0 <= consecutive_errors (locals (tick w st)) <= 5 /\
  (outcome (tick w st) = Ret Continue -> loop_ok (locals (tick w st))) /\
  Forall (fun s => s ∈ loop_sleeps) (sleeps (trace (tick w st))).
Proof.
  intros [Hc Hm].
  pose proof (cycle_keeps_counter w st) as [Hc1 Hm1].
  pose proof (cycle_sleeps w st) as Hs.
  assert (100 ∈ loop_sleeps) as H100 by apply list_elem_of_here.
  assert (wait_time 1 ∈ loop_sleeps) as H300
    by (apply wait_time_in_loop_sleeps; lia).
  rewrite tick_run, tick_try_run. unfold loop_ok.
  destruct (cycle w st) as [[[[]|e] st1] t1]; cbn [locals trace fst snd] in *.
  - destruct (cycle_nap w) as [[]|e'].
    + cbn [locals trace outcome fst snd set_consecutive_errors
           consecutive_errors max_errors].
      rewrite !sleeps_app, Hs. cbn [sleeps app].
      repeat split; try lia. by apply Forall_cons.
    + destruct (is_Exception e').
      * rewrite on_error_run. cbv zeta.
        change (consecutive_errors (set_consecutive_errors 0 st1) + 1) with 1.
        change (max_errors (set_consecutive_errors 0 st1)) with (max_errors st1).
        rewrite Hm1, Hm. change (5 <=? 1) with false.
        cbn [locals trace outcome after fst snd set_consecutive_errors
             consecutive_errors max_errors].
        rewrite !sleeps_app, Hs. cbn [sleeps app].
        repeat split; try lia.
        apply Forall_cons; split; [done|]. by apply Forall_cons.
      * cbn [locals trace outcome fst snd set_consecutive_errors
             consecutive_errors max_errors].
        rewrite !sleeps_app, Hs. cbn [sleeps app].
        repeat split; try lia; try discriminate. by apply Forall_cons.
  - destruct (is_Exception e).
    + rewrite on_error_run. cbv zeta. rewrite Hm1, Hc1, Hm.
      destruct (5 <=? consecutive_errors st + 1) eqn:Hle;
        [apply Z.leb_le in Hle | apply Z.leb_gt in Hle];
        cbn [locals trace outcome after fst snd set_consecutive_errors
             consecutive_errors max_errors];
        rewrite !sleeps_app, Hs; cbn [sleeps app];
        repeat split; try lia; try discriminate.
      * constructor.
      * apply Forall_cons; split; [|constructor].
        apply wait_time_in_loop_sleeps. lia.
    + cbn [locals trace outcome after fst snd].
      rewrite !sleeps_app, Hs. cbn [sleeps app].
      repeat split; try lia; try discriminate. constructor.
Qed.

(** X7: starting from a state the loop can be in, however the world behaves:
    the threshold stays 5, the counter stays between 0 and 5 and is below
    5 as long as the loop has not stopped, and the loop never sleeps
    anything but 100, 300, 600, 1200 or 2400 seconds. *)
Theorem loop_counter_invariant (ticks : list TickWorld) (st : BotState) :
  loop_ok st ->
  let r := main_loop ticks st in
  max_errors (locals r) = 5 /\
  0 <= consecutive_errors (locals r) <= 5 /\
  (outcome r = Ret StillRunning -> loop_ok (locals r)) /\
  Forall (fun s => s ∈ loop_sleeps) (sleeps (trace r)).
Proof.
  revert st. induction ticks as [|w rest IH]; intros st Hok; cbv zeta.
  - pose proof Hok as [Hc Hm]. cbn.
    split; [exact Hm|]. split; [lia|]. split; [done|]. constructor.
  - rewrite main_loop_cons.
    pose proof (tick_loop_ok w st Hok) as (Hm & Hc & Hgo & Hs).
    destruct (tick w st) as [[[[]|e] st1] t1]; cbn [locals trace outcome fst snd] in *.
    + specialize (IH st1 (Hgo eq_refl)). cbv zeta in IH.
      destruct IH as (IHm & IHc & IHgo & IHs).
      cbn [after locals trace outcome fst snd].
      split; [exact IHm|]. split; [exact IHc|]. split; [exact IHgo|].
      rewrite sleeps_app. by apply Forall_app.
    + split; [exact Hm|]. split; [exact Hc|]. split; [discriminate|exact Hs].
    + split; [exact Hm|]. split; [exact Hc|]. split; [discriminate|exact Hs].
Qed.

Lemma loop_counter_invariant_witness :
  let r := main_loop [failing_tick (Ret tt); calm_tick 1700000000 (answer_id "1")] init in
  max_errors (locals r) = 5 /\ 0 <= consecutive_errors (locals r) <= 5.
Proof.
  pose proof (loop_counter_invariant
                [failing_tick (Ret tt); calm_tick 1700000000 (answer_id "1")] init
                ltac:(unfold loop_ok; cbn; lia)) as (Hm & Hc & _).
  split; [exact Hm | exact Hc].
Defined.

Lemma tick_cycle_fails (w : TickWorld) (st : BotState) :
  cycle_fails w ->
  max_errors st = 5 ->
  let n := consecutive_errors st + 1 in
  exists t,
    tick w st =
      (if 5 <=? n then Ret Break else Ret Continue, set_consecutive_errors n st, t) /\
    api_calls t = [] /\
    sleeps t = if 5 <=? n then [] else [wait_time n].
Proof.
  intros (e & Hclock & He & Hnap) Hm n.
  rewrite tick_run, tick_try_run, (cycle_clock_raise _ _ _ Hclock), He.
  rewrite on_error_run. cbv zeta. fold n. rewrite Hm, Hnap.
  destruct (5 <=? n); eexists; (split; [reflexivity|]); done.
Qed.

(** X8: passes whose cycle raises an exception before any action make the
    loop give up: from a state with counter [c], the pass that brings the
    counter to 5 stops the loop; until then the passes have slept
    [wait_time (c+1)], ..., [wait_time 4] and nothing else, no call was
    made and [last_tweet_time] is untouched. *)
Theorem failing_passes_stop (ticks : list TickWorld) (st : BotState) :
  loop_ok st ->
  Forall cycle_fails ticks ->
  5 - consecutive_errors st <= Z.of_nat (length ticks) ->
  let r := main_loop ticks st in
  outcome r = Ret Stopped /\
  consecutive_errors (locals r) = 5 /\
  last_tweet_time (locals r) = last_tweet_time st /\
  api_calls (trace r) = [] /\
  sleeps (trace r) =
    wait_time <$> seqZ (consecutive_errors st + 1) (4 - consecutive_errors st).
Proof.
  revert st. induction ticks as [|w rest IH]; intros st [Hc Hm] Hall Hlen; cbv zeta.
  { cbn in Hlen. lia. }
  apply Forall_cons in Hall as [Hw Hrest].
  rewrite main_loop_cons.
  destruct (tick_cycle_fails w st Hw Hm) as (t & -> & Hapi & Hsl).
  destruct (5 <=? consecutive_errors st + 1) eqn:Hle;
    [apply Z.leb_le in Hle | apply Z.leb_gt in Hle].
  - cbn [outcome locals trace fst snd].
    rewrite Hsl, Hapi, seqZ_nil by lia.
    repeat split; try done. cbn. lia.
  - specialize (IH (set_consecutive_errors (consecutive_errors st + 1) st)).
    cbv zeta in IH. cbn [consecutive_errors last_tweet_time set_consecutive_errors] in IH.
    destruct IH as (IHo & IHc & IHl & IHa & IHs).
    + split; [cbn; lia | exact Hm].
    + exact Hrest.
    + cbn [length] in Hlen. lia.
    + cbn [after outcome locals trace fst snd].
      rewrite api_calls_app, sleeps_app, Hapi, Hsl, IHa, IHs.
      repeat split; try done.
      rewrite (seqZ_cons (consecutive_errors st + 1)) by lia.
      cbn [fmap list_fmap app]. repeat f_equal; lia.
Qed.

Lemma failing_passes_stop_witness :
  let r := main_loop (replicate 6 (failing_tick (Ret tt))) init in
  outcome r = Ret Stopped /\ sleeps (trace r) = [300; 600; 1200; 2400].
Proof.
  assert (cycle_fails (failing_tick (Ret tt))) as Hf
    by (exists out_of_memory; done).
  pose proof (failing_passes_stop (replicate 6 (failing_tick (Ret tt))) init
                ltac:(unfold loop_ok; cbn; lia)
                ltac:(repeat (apply Forall_cons; split; [exact Hf|]); constructor)
                ltac:(cbn; lia)) as (Ho & _ & _ & _ & Hs).
  split; [exact Ho | exact Hs].
Defined.

Lemma tick_wait_fails (w : TickWorld) (st : BotState) :
  wait_fails w ->
  max_errors st = 5 ->
  exists st1 t,
    tick w st = (Ret Continue, st1, t) /\
    consecutive_errors st1 = 1 /\ max_errors st1 = 5 /\
    sleeps t = [100; 300].
Proof.
  intros (now & e & Hnow & Hpost & Hnap & He & Hback) Hm.
  pose proof (cycle_keeps_counter w st) as [_ Hm1].
  pose proof (cycle_sleeps w st) as Hs.
  assert (exists st1 t1, cycle w st = (Ret tt, st1, t1)) as (st1 & t1 & Hcycle).
  { rewrite (cycle_run _ _ _ Hnow). destruct (isDue _ _ _); [|eauto].
    pose proof (post_tweet_truthy (client_v1 w)) as Hp.
    destruct (post_tweet (client_v1 w) tt) as [[[posted|e'] l] t]; [eauto|].
    cbn in Hp. destruct Hp as [Hr He']. rewrite (Hpost _ Hr) in He'. done. }
  rewrite Hcycle in Hm1, Hs. cbn [locals trace fst snd] in Hm1, Hs.
  rewrite tick_run, tick_try_run, Hcycle, Hnap, He, on_error_run. cbv zeta.
  change (max_errors (set_consecutive_errors 0 st1)) with (max_errors st1).
  change (consecutive_errors (set_consecutive_errors 0 st1) + 1) with 1.
  rewrite Hm1, Hm, Hback. change (5 <=? 1) with false.
  do 2 eexists. split; [reflexivity|].
  split; [reflexivity|]. split; [cbn; congruence|].
  rewrite !sleeps_app, Hs. reflexivity.
Qed.

(** X9: failures of the wait do not add up: when in every pass the cycle
    completes and it is the steady-state sleep that raises an
    [Exception], the reset of line 314 has run before each failure, so
    the counter is 1 after every pass, each backoff is the first one (300
    seconds), and the loop never reaches its threshold. *)
Theorem wait_failures_never_stop (ticks : list TickWorld) (st : BotState) :
  max_errors st = 5 ->
  Forall wait_fails ticks ->
  let r := main_loop ticks st in
  outcome r = Ret StillRunning /\
  (ticks <> [] -> consecutive_errors (locals r) = 1) /\
  sleeps (trace r) = mjoin (replicate (length ticks) [100; 300]).
Proof.
  revert st. induction ticks as [|w rest IH]; intros st Hm Hall; cbv zeta.
  { done. }
  apply Forall_cons in Hall as [Hw Hrest].
  rewrite main_loop_cons.
  destruct (tick_wait_fails w st Hw Hm) as (st1 & t & -> & Hc1 & Hm1 & Hs).
  specialize (IH st1 Hm1 Hrest). cbv zeta in IH. destruct IH as (IHo & IHc & IHs).
  cbn [after outcome locals trace fst snd].
  split; [exact IHo|]. split.
  - intros _. destruct rest as [|w' rest']; [exact Hc1 | by apply IHc].
  - rewrite sleeps_app, Hs, IHs. reflexivity.
Qed.

Lemma wait_failures_never_stop_witness :
  let w := {| time_time := Ret 1700000000;
              client_v1 := {| tweet_pick := 0; create_tweet := answer_id "1" |};
              cycle_nap := Raise out_of_memory; backoff_nap := Ret tt |} in
  let r := main_loop (replicate 7 w) init in
  outcome r = Ret StillRunning /\ consecutive_errors (locals r) = 1.
Proof.
  intros w.
  assert (wait_fails w) as Hw.
  { exists 1700000000, out_of_memory. repeat split; try done. }
  pose proof (wait_failures_never_stop (replicate 7 w) init eq_refl
                ltac:(repeat (apply Forall_cons; split; [exact Hw|]); constructor))
    as (Ho & Hc & _).
  split; [exact Ho | by apply Hc].
Defined.

(** ** The cap of like_tweets *)

(** One turn of the like loop makes the one call, adds at most one to
    [liked_count], and never leaves the loop by [break]. *)
Lemma like_one_effect (hashtag : string) (tweet : Tweet) (n : Z) :
  let r := like_one hashtag tweet n in
  n <= locals r <= n + 1 /\
  api_calls (trace r) = [CreateFavorite (tweet_id tweet)] /\
  outcome r <> Ret Break.
Proof.
  cbv zeta. unfold like_one. rewrite try_except_run. py_unfold.
  destruct (create_favorite tweet) as [[]|e].
  - destruct (like_nap tweet) as [[]|e].
    + cbn. repeat split; try lia; done.
    + cbn [first_match]. destruct (is_TweepyException e).
      * destruct (str_in _ _); cbn; repeat split; try lia; done.
      * cbn. repeat split; try lia; done.
  - cbn [first_match]. destruct (is_TweepyException e).
    + destruct (str_in _ _); cbn; repeat split; try lia; done.
    + cbn. repeat split; try lia; done.
Qed.

Lemma like_loop_effect (hashtag : string) (tweets : list Tweet) (n : Z) :
  let r := for_each tweets (like_one hashtag) n in
  n <= locals r <= n + Z.of_nat (length tweets) /\
  exists k, (k <= length tweets)%nat /\
            api_calls (trace r) = (fun t => CreateFavorite (tweet_id t)) <$> take k tweets.
Proof.
  revert n. induction tweets as [|tweet rest IH]; intros n; cbv zeta.
  { cbn. split; [lia|]. exists 0%nat. done. }
  rewrite for_each_cons.
  pose proof (like_one_effect hashtag tweet n) as (Hn & Hcalls & Hbreak).
  cbv zeta in Hn, Hcalls, Hbreak.
  destruct (like_one hashtag tweet n) as [[[[]|e] n1] t1];
    cbn [locals trace outcome fst snd] in *; try done.
  - specialize (IH n1). cbv zeta in IH. destruct IH as (IHn & k & Hk & IHcalls).
    cbn [after locals trace outcome fst snd length].
    split; [lia|]. exists (S k). split; [lia|].
    rewrite api_calls_app, Hcalls, IHcalls. reflexivity.
  - cbn [length]. split; [lia|]. exists 1%nat. split; [lia|].
    rewrite Hcalls. reflexivity.
Qed.

(** X10: [like_tweets] searches once and then likes tweets in the order of
    the result, never more than [MAX_LIKES_PER_RUN] of them; the count it
    returns is between 0 and [MAX_LIKES_PER_RUN], and a result without
    tweets gives 0 without any like. *)
Theorem like_tweets_cap (w : LikeWorld) (l0 : Z) :
  let r := like_tweets w l0 in
  let hashtag := random_choice (hashtag_pick w) HASHTAGS_TO_LIKE in
  match outcome r with
  | Ret v => 0 <= v <= Z.of_nat MAX_LIKES_PER_RUN
  | Raise e => is_Exception e = false
  end /\
  exists k, (k <= MAX_LIKES_PER_RUN)%nat /\
    api_calls (trace r) =
      SearchRecentTweets ("#" +:+ hashtag +:+ " -is:retweet lang:en")
      :: ((fun t => CreateFavorite (tweet_id t)) <$>
            take k (match search_recent_tweets w with
                    | Ret (Some tweets) => tweets
                    | _ => []
                    end)).
Proof.
  cbv zeta. set (hashtag := random_choice (hashtag_pick w) HASHTAGS_TO_LIKE).
  pose proof (like_tweets_absorbs w l0) as Habs. fold hashtag in Habs.
  assert (exists r0 l1 t1,
            like_tweets_try w hashtag l0 = (r0, l1, t1) /\
            match r0 with Ret v => 0 <= v <= 3 | Raise _ => True end /\
            exists k, (k <= 3)%nat /\
              api_calls t1 =
                SearchRecentTweets ("#" +:+ hashtag +:+ " -is:retweet lang:en")
                :: ((fun t => CreateFavorite (tweet_id t)) <$>
                      take k (match search_recent_tweets w with
                              | Ret (Some tweets) => tweets
                              | _ => []
                              end)))
    as (r0 & l1 & t1 & Htry & Hv & k & Hk & Hcalls).
  { destruct (search_recent_tweets w) as [[tweets|]|e] eqn:Hsearch.
    - destruct tweets as [|tweet rest].
      + unfold like_tweets_try. py_unfold. rewrite Hsearch.
        do 3 eexists. split; [reflexivity|]. split; [lia|].
        exists 0%nat. split; [lia|]. reflexivity.
      + rewrite (like_tweets_try_run _ _ _ _ Hsearch eq_refl), bind_run.
        pose proof (like_loop_effect hashtag
                      (take MAX_LIKES_PER_RUN (tweet :: rest)) 0) as (Hn & k & Hk & Hc).
        cbv zeta in Hn, Hc.
        assert (length (take MAX_LIKES_PER_RUN (tweet :: rest)) <= 3)%nat as Hlen
          by (rewrite length_take; unfold MAX_LIKES_PER_RUN; lia).
        rewrite take_take in Hc. unfold MAX_LIKES_PER_RUN in *.
        replace (k `min` 3)%nat with k in Hc by lia.
        destruct (for_each _ _ 0) as [[[[]|e] n1] t1];
          cbn [locals trace outcome fst snd] in *;
          do 3 eexists; (split; [reflexivity|]);
          cbn [after get locals trace outcome fst snd app];
          (split; [try done; lia|]); exists k; (split; [lia|]);
          cbn [api_calls]; rewrite ?app_nil_r, Hc; reflexivity.
    - unfold like_tweets_try. py_unfold. rewrite Hsearch.
      do 3 eexists. split; [reflexivity|]. split; [lia|].
      exists 0%nat. split; [lia|]. reflexivity.
    - unfold like_tweets_try. py_unfold. rewrite Hsearch.
      do 3 eexists. split; [reflexivity|]. split; [done|].
      exists 0%nat. split; [lia|]. reflexivity. }
  rewrite Htry in Habs. unfold MAX_LIKES_PER_RUN.
  destruct r0 as [v|e].
  - rewrite Habs. cbn [outcome trace fst snd]. split; [exact Hv|]. eauto.
  - destruct (is_Exception e) eqn:He.
    + destruct Habs as (lvl & msg & ->). cbn [outcome trace fst snd].
      split; [lia|]. exists k. split; [exact Hk|].
      rewrite api_calls_app, Hcalls. cbn. by rewrite app_nil_r.
    + rewrite Habs. cbn [outcome trace fst snd]. split; [exact He|]. eauto.
Qed.

(** ** Loops over a cursor *)

Lemma for_cursor_cons {L A} (n : nat) (x : A) (rest : list A) (err : option exn)
    (body : A -> Py L ctl) (l : L) :
  for_cursor (S n) (x :: rest) err body l =
  match body x l with
  | (Ret Continue, l1, t1) => after t1 (for_cursor n rest err body l1)
  | (Ret Break, l1, t1) => (Ret tt, l1, t1)
  | (Raise e, l1, t1) => (Raise e, l1, t1)
  end.
Proof.
  cbn [for_cursor]. rewrite bind_run.
  destruct (body x l) as [[[[]|e] l1] t1]; try reflexivity.
  unfold after. cbn. by rewrite app_nil_r.
Qed.

(** A loop over a cursor: [I] holds whenever a turn starts, [Q] however
    the loop ends, and [T] of everything it does, provided each turn on
    one of the first [n] items keeps them so. *)
Lemma for_cursor_spec {L A} (I Q : L -> Prop) (T : event -> Prop)
    (n : nat) (items : list A) (err : option exn) (body : A -> Py L ctl) :
  (forall l, I l -> Q l) ->
  (forall x l, x ∈ take n items -> I l ->
     Forall T (trace (body x l)) /\
     match outcome (body x l) with
     | Ret Continue => I (locals (body x l))
     | _ => Q (locals (body x l))
     end) ->
  forall l, I l ->
    Q (locals (for_cursor n items err body l)) /\
    Forall T (trace (for_cursor n items err body l)).
Proof.
  intros HIQ. revert items.
  induction n as [|n IH]; intros items Hbody l Hl.
  { cbn. split; [by apply HIQ | constructor]. }
  destruct items as [|x rest].
  { cbn. destruct err; cbn; (split; [by apply HIQ | constructor]). }
  rewrite for_cursor_cons.
  destruct (Hbody x l (list_elem_of_here _ _) Hl) as [HT Hx].
  destruct (body x l) as [[[[]|e] l1] t1]; cbn [locals trace outcome fst snd] in *;
    try (split; [exact Hx | exact HT]).
  destruct (IH rest) with (l := l1) as [HQ HT'].
  - intros y l' Hy. apply Hbody. cbn [take]. by apply list_elem_of_further.
  - exact Hx.
  - cbn [after locals trace fst snd]. split; [exact HQ|]. by apply Forall_app.
Qed.

Lemma Forall_api_calls (P : api_call -> Prop) (t : list event) :
  Forall (fun ev => match ev with Api c => P c | _ => True end) t ->
  Forall P (api_calls t).
Proof.
  induction 1 as [|ev t Hev _ IH]; [constructor|].
  destruct ev; cbn; try exact IH. by constructor.
Qed.

(** ** follow_back_users *)

(** The loop over the friends collects the ids of the first [n] and does
    nothing else; it fails only if the cursor does before [n] items. *)
Lemma friends_loop_run (n : nat) (items : list User) (err : option exn)
    (add : User -> Py FollowLocals ctl) (l : FollowLocals) :
  (forall user l,
     add user l =
     (Ret Continue,
      {| following_ids := following_ids l ∪ {[user_id user]}; count := count l |},
      [])) ->
  for_cursor n items err add l =
  (match (if (length items <? n)%nat then err else None) with
   | Some e => Raise e
   | None => Ret tt
   end,
   {| following_ids := following_ids l ∪ list_to_set (user_id <$> take n items);
      count := count l |},
   []).
Proof.
  intros Hadd. revert items l. induction n as [|n IH]; intros items l.
  { destruct l as [F c]. rewrite take_0. cbn. by rewrite (right_id_L ∅ (∪)). }
  destruct items as [|user rest].
  { destruct l as [F c], err; cbn; by rewrite (right_id_L ∅ (∪)). }
  rewrite for_cursor_cons, Hadd, IH.
  cbn [after outcome locals trace fst snd following_ids count app
       length take fmap list_fmap list_to_set].
  change (S (length rest) <? S n)%nat with (length rest <? n)%nat.
  by rewrite (assoc_L (∪)).
Qed.

Lemma follow_one_run (follower : Follower) (l : FollowLocals) :
  follow_one follower l =
  if bool_decide (follower_id follower ∉ following_ids l) then
    let asked := Api (FollowUser (follower_id follower)) in
    match follow_user follower with
    | Raise e =>
        if is_Exception e then
          (Ret Continue, l,
           [ asked;
             Log ERROR ("Error following user @" +:+ screen_name follower
                        +:+ ": " +:+ exn_str e) ])
        else (Raise e, l, [asked])
    | Ret _ =>
        let l1 := {| following_ids := following_ids l; count := count l + 1 |} in
        let t := [ asked; Log INFO ("Followed back @" +:+ screen_name follower);
                   Sleep 5 ] in
        match follow_nap follower with
        | Ret _ => (Ret (if 5 <=? count l + 1 then Break else Continue), l1, t)
        | Raise e =>
            if is_Exception e then
              (Ret Continue, l1,
               t ++ [ Log ERROR ("Error following user @" +:+ screen_name follower
                                 +:+ ": " +:+ exn_str e) ])
            else (Raise e, l1, t)
        end
    end
  else (Ret Continue, l, []).
Proof.
  unfold follow_one. py_unfold.
  destruct (bool_decide (follower_id follower ∉ following_ids l)); [|reflexivity].
  destruct (follow_user follower) as [[]|e].
  - destruct (follow_nap follower) as [[]|e].
    + cbn. by destruct (5 <=? count l + 1).
    + destruct (is_Exception e); reflexivity.
  - destruct (is_Exception e); reflexivity.
Qed.

Lemma follow_back_users_try_run (w : FollowWorld) (l0 : FollowLocals) :
  follow_back_users_try w l0 =
  match fw_get_me w with
  | Raise e => (Raise e, l0, [Api GetMe])
  | Ret None =>
      (Raise (Exn OtherException "'NoneType' object has no attribute 'id'"),
       l0, [Api GetMe])
  | Ret (Some _) =>
      match friends_error w with
      | Some e =>
          (Raise e, {| following_ids := friend_ids w; count := count l0 |},
           [Api GetMe; Api GetFriends])
      | None =>
          after [Api GetMe; Api GetFriends; Api GetFollowers]
            ((for_cursor 20 (cursor_items (get_followers w))
                (cursor_error (get_followers w)) follow_one;;
              l ← get;
              (if 0 <? count l
               then log INFO ("Followed back " +:+ pretty (count l) +:+ " users")
               else log INFO "No new users to follow back");;
              mret (count l))
               {| following_ids := friend_ids w; count := 0 |})
      end
  end.
Proof.
  unfold follow_back_users_try, attr. py_unfold.
  destruct (fw_get_me w) as [[me|]|e]; try reflexivity.
  rewrite friends_loop_run by reflexivity.
  cbn [following_ids count]. rewrite (left_id_L ∅ (∪)).
  fold (friend_ids w). fold (friends_error w).
  destruct (friends_error w) as [e|]; [reflexivity|].
  destruct (for_cursor 20 _ _ _ _) as [[[[]|e] l1] t1]; [|reflexivity].
  destruct (0 <? count l1); cbn; by rewrite ?app_nil_r.
Qed.

(** The calls of the [try] body are those of the function. *)
Lemma absorbs_api_calls {L A} (f body : Py L A) (sentinel : A) (l : L) :
  absorbs f body sentinel ->
  api_calls (trace (f l)) = api_calls (trace (body l)).
Proof.
  intros Habs. specialize (Habs l).
  destruct (body l) as [[[a|e] l1] t1]; [by rewrite Habs|].
  destruct (is_Exception e); [|by rewrite Habs].
  destruct Habs as (lvl & msg & ->). cbn [trace snd].
  rewrite api_calls_app. cbn. by rewrite app_nil_r.
Qed.

(** X11: [follow_back_users] never follows a user it found among the first
    100 accounts the bot follows, and only ever follows one of the first
    20 followers; besides that it makes the three lookups and no other
    call. *)
Theorem follow_back_never_refollows (w : FollowWorld) (l0 : FollowLocals) :
  Forall (follow_call_ok w) (api_calls (trace (follow_back_users w l0))).
Proof.
  rewrite (absorbs_api_calls _ _ _ _ (follow_back_users_absorbs w)).
  apply Forall_api_calls. rewrite follow_back_users_try_run.
  destruct (fw_get_me w) as [[me|]|e]; try (repeat constructor).
  destruct (friends_error w) as [e|]; [repeat constructor|].
  cbn [after trace snd].
  repeat (apply Forall_cons; split; [exact I|]).
  rewrite bind_run.
  destruct (for_cursor_spec
              (fun l => following_ids l = friend_ids w)
              (fun l => following_ids l = friend_ids w)
              (fun ev => match ev with Api c => follow_call_ok w c | _ => True end)
              20 (cursor_items (get_followers w)) (cursor_error (get_followers w))
              follow_one (fun _ H => H)) with
    (l := {| following_ids := friend_ids w; count := 0 |}) as [_ HT];
    [|reflexivity|].
  - intros follower l Hin Hl. rewrite follow_one_run, Hl.
    case_bool_decide as Hnew; [|split; [constructor | done]].
    assert (follow_call_ok w (FollowUser (follower_id follower))) as Hok.
    { split; [exact Hnew|]. by apply list_elem_of_fmap_2. }
    cbv zeta.
    destruct (follow_user follower) as [[]|e];
      [destruct (follow_nap follower) as [[]|e]|];
      try destruct (is_Exception e);
      try destruct (5 <=? count l + 1);
      cbn [trace outcome locals fst snd following_ids app];
      (split; [repeat (apply Forall_cons; split; [done|]); constructor | done]).
  - destruct (for_cursor 20 _ _ _ _) as [[[[]|e] l1] t1];
      cbn [after trace snd] in *; [|exact HT].
    rewrite bind_run. cbn [get after trace snd locals outcome fst].
    apply Forall_app. split; [exact HT|].
    destruct (0 <? count l1); repeat constructor.
Qed.

(** X12: when no sleep between two follows is cut short by an [Exception],
    [follow_back_users] follows at most 5 users in a run: the count it
    returns is between 0 and 5. *)
Theorem follow_back_cap (w : FollowWorld) (l0 : FollowLocals) :
  (forall follower e,
     follower ∈ take 20 (cursor_items (get_followers w)) ->
     follow_nap follower = Raise e -> is_Exception e = false) ->
  match outcome (follow_back_users w l0) with
  | Ret v => 0 <= v <= 5
  | Raise e => is_Exception e = false
  end.
Proof.
  intros Hnap.
  pose proof (follow_back_users_absorbs w l0) as Habs.
  assert (match follow_back_users_try w l0 with
          | (Ret v, _, _) => 0 <= v <= 5
          | _ => True
          end) as Hv.
  { rewrite follow_back_users_try_run.
    destruct (fw_get_me w) as [[me|]|e]; try done.
    destruct (friends_error w) as [e|]; [done|].
    rewrite bind_run.
    destruct (for_cursor_spec
                (fun l => 0 <= count l < 5) (fun l => 0 <= count l <= 5)
                (fun _ => True)
                20 (cursor_items (get_followers w)) (cursor_error (get_followers w))
                follow_one ltac:(cbn; intros; lia)) with
      (l := {| following_ids := friend_ids w; count := 0 |}) as [HQ _];
      [|cbn; lia|].
    - intros follower l Hin Hl. split; [by apply Forall_true|].
      rewrite follow_one_run.
      case_bool_decide as Hnew; [|exact Hl]. cbv zeta.
      destruct (follow_user follower) as [[]|e].
      + destruct (follow_nap follower) as [[]|e] eqn:Hn.
        * destruct (5 <=? count l + 1) eqn:Hle;
            [apply Z.leb_le in Hle | apply Z.leb_gt in Hle]; cbn; lia.
        * rewrite (Hnap _ _ Hin Hn). cbn. lia.
      + destruct (is_Exception e); cbn; lia.
    - destruct (for_cursor 20 _ _ _ _) as [[[[]|e] l1] t1];
        cbn [locals fst snd after outcome] in *; [|done].
      rewrite bind_run. cbn [get after outcome fst].
      rewrite bind_run.
      destruct (0 <? count l1); cbn; exact HQ. }
  destruct (follow_back_users_try w l0) as [[[v|e] l1] t1].
  - by rewrite Habs.
  - destruct (is_Exception e) eqn:He.
    + destruct Habs as (lvl & msg & ->). cbn. lia.
    + by rewrite Habs.
Qed.

(** ** The replies of reply_to_mentions *)

Lemma for_each_trace {L A} (T : event -> Prop) (items : list A)
    (body : A -> Py L ctl) :
  (forall x l, x ∈ items -> Forall T (trace (body x l))) ->
  forall l, Forall T (trace (for_each items body l)).
Proof.
  induction items as [|x rest IH]; intros Hbody l; [constructor|].
  rewrite for_each_cons.
  pose proof (Hbody x l (list_elem_of_here _ _)) as Hx.
  destruct (body x l) as [[[[]|e] l1] t1]; cbn [trace snd] in *; try exact Hx.
  cbn [after trace snd]. apply Forall_app. split; [exact Hx|].
  apply IH. intros y l' Hy. apply Hbody. by apply list_elem_of_further.
Qed.

(** The calls of a reply: at most one lookup of the author, and at most
    one [create_tweet], in reply to the mention. *)
Lemma send_reply_trace (incl : option (gmap string (list User)))
    (mention : Mention) (l : option Z) :
  Forall (fun ev => match ev with
                    | Api (GetUser _) => True
                    | Api (CreateTweet _ (Some id)) => id = mention_id mention
                    | Api _ => False
                    | _ => True
                    end)
         (trace (send_reply incl mention l)).
Proof.
  unfold send_reply, attr. py_unfold.
  destruct (negb (truthy (username_from_includes incl (author_id mention))));
    [destruct (get_user mention) as [[u|]|e]|];
    try (repeat constructor; fail);
    (destruct (reply_tweet mention) as [[]|e1];
     [destruct (reply_nap mention) as [[]|e2]|];
     cbn; try destruct (is_Exception _); repeat constructor).
Qed.

Lemma reply_one_trace (since : option Z) (incl : option (gmap string (list User)))
    (mention : Mention) (new : option Z) :
  Forall (fun ev => match ev with
                    | Api (GetUser _) => True
                    | Api (CreateTweet _ (Some id)) =>
                        id = mention_id mention /\ newer id since = true
                    | Api _ => False
                    | _ => True
                    end)
         (trace (reply_one since incl mention new)).
Proof.
  unfold reply_one. rewrite bind_run, unset_or_gt_run.
  destruct (newer (mention_id mention) since) eqn:Hs; [|constructor].
  rewrite bind_run. cbn [get]. rewrite bind_run, unset_or_gt_run.
  rewrite bind_run.
  assert (forall l,
            Forall (fun ev => match ev with
                              | Api (GetUser _) => True
                              | Api (CreateTweet _ (Some id)) =>
                                  id = mention_id mention /\ newer id since = true
                              | Api _ => False
                              | _ => True
                              end)
                   (trace (send_reply incl mention l))) as Hsend.
  { intros l. eapply Forall_impl; [apply send_reply_trace|].
    intros [| | |[]]; try done. intros H. destruct in_reply_to_tweet_id; [|done].
    by subst. }
  destruct (newer (mention_id mention) new); cbn [put mret Py_ret];
    rewrite bind_run;
    match goal with
    | |- context [send_reply incl mention ?l] =>
        pose proof (Hsend l) as Hl;
        destruct (send_reply incl mention l) as [[[[]|e] l1] t1]
    end; cbn in *; by rewrite ?app_nil_r.
Qed.

(** X13: [reply_to_mentions] replies only to mentions the collaborator
    returned and whose id passes the test of line 193 (no [since_id], or
    an id above it): a mention at or below a set [since_id] gets no reply.
    Besides replies it only makes lookups. *)
Theorem replies_only_to_newer (client : MentionsWorld) (since l0 : option Z) :
  Forall (reply_call_ok client since)
         (api_calls (trace (reply_to_mentions client since l0))).
Proof.
  rewrite (absorbs_api_calls _ _ _ _ (reply_to_mentions_absorbs client since)).
  apply Forall_api_calls. rewrite reply_to_mentions_try_run.
  destruct (mw_get_me client) as [[me|]|e]; try (repeat constructor).
  cbv zeta.
  destruct (get_users_mentions client) as [ms|e] eqn:Hms; try (repeat constructor).
  destruct (negb (truthy (mentions_data ms))); [repeat constructor|].
  cbn [after trace snd].
  repeat (apply Forall_cons; split; [exact I|]).
  assert (forall (m : Mention) (l : option Z),
            m ∈ default [] (mentions_data ms) ->
            Forall (fun ev => match ev with
                              | Api c => reply_call_ok client since c
                              | _ => True
                              end)
                   (trace (reply_one since (includes ms) m l))) as Hbody.
  { intros m l Hm. eapply Forall_impl; [apply reply_one_trace|].
    intros [| | |[]]; try done.
    destruct in_reply_to_tweet_id; [|done]. intros [-> Hnew].
    split; [exact Hnew | eauto]. }
  pose proof (for_each_trace _ _ _ Hbody since) as Hloop.
  destruct (for_each _ _ since) as [[[[]|e] l1] t1]; exact Hloop.
Qed.

(** ** Where the cursor ends *)

(** A loop whose turns never [break] and change the locals by [step],
    whatever their outcome, has folded [step] over all the items when it
    returns. *)
Lemma for_each_complete {L A} (step : L -> A -> L) (items : list A)
    (body : A -> Py L ctl) :
  (forall x l, locals (body x l) = step l x /\ outcome (body x l) <> Ret Break) ->
  forall l, outcome (for_each items body l) = Ret tt ->
            locals (for_each items body l) = fold_left step items l.
Proof.
  intros Hbody. induction items as [|x rest IH]; intros l Hret; [reflexivity|].
  rewrite for_each_cons in *.
  destruct (Hbody x l) as [Hstep Hbreak].
  destruct (body x l) as [[[[]|e] l1] t1]; cbn [locals outcome after fst snd] in *;
    try done.
  subst l1. by apply IH.
Qed.

Lemma reply_one_outcome (since : option Z) (incl : option (gmap string (list User)))
    (mention : Mention) (new : option Z) :
  outcome (reply_one since incl mention new) <> Ret Break.
Proof.
  unfold reply_one. rewrite bind_run, unset_or_gt_run.
  destruct (newer (mention_id mention) since); [|done].
  rewrite bind_run. cbn [get]. rewrite bind_run, unset_or_gt_run.
  rewrite bind_run.
  destruct (newer (mention_id mention) new); cbn [put mret Py_ret];
    rewrite bind_run;
    match goal with
    | |- context [send_reply incl mention ?l] =>
        destruct (send_reply incl mention l) as [[[[]|e] l1] t1]
    end; done.
Qed.

Lemma cursor_le_trans (a b c : option Z) :
  cursor_le a b -> cursor_le b c -> cursor_le a c.
Proof. destruct a, b, c; cbn; try done. lia. Qed.

(** A turn on a mention with a positive id leaves the cursor at or above
    that id, and never moves it down. *)
Lemma advance_covers (since new : option Z) (mention : Mention) :
  0 < mention_id mention ->
  cursor_le since new ->
  cursor_le (Some (mention_id mention)) (advance since new mention) /\
  cursor_le new (advance since new mention) /\
  cursor_le since (advance since new mention).
Proof.
  intros Hpos Hle. unfold advance, newer.
  destruct since as [s|], new as [b|]; cbn in *; try done;
    repeat (match goal with
            | |- context [?x =? 0] => destruct (Z.eqb_spec x 0)
            | |- context [?x <? ?y] => destruct (Z.ltb_spec x y)
            end; cbn); lia.
Qed.

Lemma fold_advance_covers (since : option Z) (found : list Mention) (new : option Z) :
  Forall (fun m => 0 < mention_id m) found ->
  cursor_le since new ->
  cursor_le new (fold_left (advance since) found new) /\
  forall m, m ∈ found ->
            cursor_le (Some (mention_id m)) (fold_left (advance since) found new).
Proof.
  intros Hpos. revert new. induction Hpos as [|m rest Hm _ IH]; intros new Hle.
  { split; [apply cursor_le_refl|]. intros m Hin. by apply elem_of_nil in Hin. }
  cbn [fold_left].
  destruct (advance_covers since new m Hm Hle) as (Hcov & Hup & Hsince).
  destruct (IH _ Hsince) as [IHup IHall].
  split; [by eapply cursor_le_trans|].
  intros m' [->|Hin]%elem_of_cons.
  - by eapply cursor_le_trans.
  - by apply IHall.
Qed.

(** X14: when the body of [reply_to_mentions] runs to its end, the value
    returned is the fold of line 193-195 over all the mentions returned,
    whether the replies were sent or failed; with positive ids it is at or
    above the id of every mention returned, so the next call, given this
    value, replies to none of them again. *)
Theorem cursor_covers_mentions (client : MentionsWorld) (since l0 : option Z)
    (ms : Mentions) (found : list Mention) (v l1 : option Z) (t1 : list event) :
  get_users_mentions client = Ret ms ->
  mentions_data ms = Some found ->
  Forall (fun m => 0 < mention_id m) found ->
  reply_to_mentions_try client since l0 = (Ret v, l1, t1) ->
  outcome (reply_to_mentions client since l0) = Ret v /\
  v = fold_left (advance since) found since /\
  (forall m, m ∈ found -> cursor_le (Some (mention_id m)) v) /\
  (forall m, m ∈ found -> newer (mention_id m) v = false).
Proof.
  intros Hms Hdata Hpos Htry.
  pose proof (reply_to_mentions_absorbs client since l0) as Habs.
  rewrite Htry in Habs. split; [by rewrite Habs|].
  assert (v = fold_left (advance since) found since) as ->.
  { rewrite reply_to_mentions_try_run, Hms, Hdata in Htry.
    destruct (mw_get_me client) as [[me|]|e]; try discriminate Htry.
    cbv zeta in Htry. destruct found as [|m rest].
    { cbn in Htry. by injection Htry as <- _ _. }
    change (truthy (Some (m :: rest))) with true in Htry.
    cbn [negb default from_option id] in Htry.
    pose proof (for_each_complete (advance since) (m :: rest)
                  (reply_one since (includes ms))
                  (fun x l => conj (reply_one_locals since (includes ms) x l)
                                   (reply_one_outcome since (includes ms) x l))
                  since) as Hfold.
    destruct (for_each (m :: rest) _ since) as [[[[]|e] l2] t2];
      cbn [after outcome locals trace fst snd] in Htry, Hfold;
      [|discriminate Htry].
    injection Htry as <- _ _. by apply Hfold. }
  split; [reflexivity|].
  destruct (fold_advance_covers since found since Hpos (cursor_le_refl _))
    as [_ Hall].
  split; [exact Hall|].
  intros m Hin. specialize (Hall m Hin).
  pose proof (proj1 (Forall_forall _ _) Hpos m Hin) as Hm. cbn beta in Hm.
  destruct (fold_left (advance since) found since) as [b|]; [|done].
  cbn in Hall. unfold newer.
  destruct (Z.eqb_spec b 0) as [->|Hb]; [lia|].
  apply Z.ltb_ge. exact Hall.
Qed.

Lemma cursor_covers_mentions_witness :
  outcome (reply_to_mentions
             (mentions_found [mention_of 12 (Raise forbidden); mention_of 11 (Ret tt)])
             (Some 10) None) = Ret (Some 12).
Proof.
  set (found := [mention_of 12 (Raise forbidden); mention_of 11 (Ret tt)]).
  destruct (reply_to_mentions_try (mentions_found found) (Some 10) None)
    as [[r l1] t1] eqn:Htry.
  pose proof Htry as Hval. vm_compute in Hval.
  injection Hval as <- _ _.
  exact (proj1 (cursor_covers_mentions (mentions_found found) (Some 10) None
                  {| mentions_data := Some found; includes := None |} found
                  (Some 12) l1 t1 eq_refl eq_refl
                  ltac:(repeat constructor) Htry)).
Defined.

Lemma follow_back_cap_witness :
  match outcome (follow_back_users
                   (followed_by (map (fun id => follower_of id (Ret tt)) (seqZ 1 7)))
                   {| following_ids := ∅; count := 0 |}) with
  | Ret v => 0 <= v <= 5
  | Raise e => is_Exception e = false
  end.
Proof.
  apply follow_back_cap.
  intros follower e Hin Hnap.
  apply elem_of_take in Hin as (i & Hi & _).
  apply list_elem_of_lookup_2, list_elem_of_In, in_map_iff in Hi
    as (id & <- & _).
  discriminate Hnap.
Defined.

(** The condition on the sleeps is needed: with seven followers whose
    follows succeed, sleeps that return stop the run at five follows,
    while sleeps that raise an [Exception] skip the test of line 255 and
    all seven are followed. *)
Lemma follow_back_cap_needs_quiet_sleeps :
  outcome (follow_back_users
             (followed_by (map (fun id => follower_of id (Ret tt)) (seqZ 1 7)))
             {| following_ids := ∅; count := 0 |}) = Ret 5 /\
  outcome (follow_back_users
             (followed_by (map (fun id => follower_of id (Raise out_of_memory))
                               (seqZ 1 7)))
             {| following_ids := ∅; count := 0 |}) = Ret 7.
Proof. vm_compute. done. Qed.

(** ** Whom a reply addresses *)

(** X15: a reply makes one [create_tweet], in reply to the mention and
    addressed to its author: by the name the expansion in [includes]
    gives for the author's id when there is one, without any lookup;
    otherwise by the name [get_user] returns, and if that lookup fails no
    reply is made. *)
Theorem reply_addresses_author (incl : option (gmap string (list User)))
    (mention : Mention) (l : option Z) :
  let reply name :=
    CreateTweet ("@" +:+ name +:+ " Thanks for the mention! This is an automated reply.")
                (Some (mention_id mention)) in
  api_calls (trace (send_reply incl mention l)) =
  match username_from_includes incl (author_id mention) with
  | Some (String c name) => [reply (String c name)]
  | _ =>
      GetUser (author_id mention)
      :: match get_user mention with
         | Ret (Some user) => [reply (username user)]
         | _ => []
         end
  end.
Proof.
  cbv zeta. unfold send_reply, attr. py_unfold.
  destruct (username_from_includes incl (author_id mention)) as [[|c name]|];
    cbn [truthy truthy_option truthy_string negb bool_decide decide_rel default
         from_option id].
  1, 3: destruct (get_user mention) as [[u|]|e]; try reflexivity.
  all: destruct (reply_tweet mention) as [[]|e1];
    [destruct (reply_nap mention) as [[]|e2]|];
    cbn; try destruct (is_Exception _); reflexivity.
Qed.
